(** * PointCloudViewer: decoder, subject filter, camera framing, annotation overlay

    Shallow embedding of src/src/components/PointCloudViewer.tsx.  The file
    holds two copies of the viewer (the orbit variant, lines 1-300, and the
    trackball variant, lines 302-619); both share a byte-identical
    [parseLssnap] and annotation loop, and differ in the filter height
    fraction, the framing policy and the autorotation.

    Numbers: a JavaScript number is a rational [Q]; where the decoder
    divides ([/] on doubles, rounded to binary64) and stores the quotient
    in a [Float32Array] (rounded to binary32), both roundings are written
    out, ties to even.  The per-frame camera motion, which calls
    [Math.cos] and [Math.sin] (in the source or in three.js's controls),
    is modelled over the reals [R]. *)

From Stdlib Require Import ZArith QArith Qminmax Qabs Qround Qreals Bool Init.Byte Reals Lra.
From Stdlib Require Lqa.
From Stdlib Require Import Ascii.
From stdpp Require Import base list strings.

Open Scope Z_scope.
#[local] Set Warnings "-register-all".

(* ------------------------------------------------------------------ *)
(** ** Exceptions and a small error monad *)

(** The exceptions the decoder can raise: the [Error] thrown on a bad header
    (carrying the magic and version put in its message), the [RangeError] of
    [DataView], typed-array constructors and [Uint8Array] views, and the
    [SyntaxError] of [JSON.parse]. *)
Inductive exn :=
| FormatError (magic : list Z) (version : Z)
| RangeError
| SyntaxError.

Inductive res (A : Type) : Type :=
| Ok (a : A)
| Throw (e : exn).
Arguments Ok {A} a.
Arguments Throw {A} e.

Definition res_bind {A B} (m : res A) (k : A -> res B) : res B :=
  match m with
  | Ok a => k a
  | Throw e => Throw e
  end.

Notation "'let!' x ':=' m 'in' k" := (res_bind m (fun x => k))
  (at level 200, x name, m at level 100, k at level 200).

Definition is_format_error {A} (r : res A) : bool :=
  match r with
  | Throw (FormatError _ _) => true
  | _ => false
  end.

(* ------------------------------------------------------------------ *)
(** ** DataView over an ArrayBuffer (little-endian reads) *)

#[export] Instance byte_inhabited : Inhabited byte := populate x00.

Definition u8 (b : byte) : Z := Z.of_N (Byte.to_N b).

(** [view.getUint8(i)]: a [RangeError] outside the buffer. *)
Definition getUint8 (buffer : list byte) (i : Z) : res Z :=
  if i <? 0 then Throw RangeError
  else match buffer !! Z.to_nat i with
       | Some b => Ok (u8 b)
       | None => Throw RangeError
       end.

(** [view.getInt16(off, true)] *)
Definition getInt16 (buffer : list byte) (off : Z) : res Z :=
  let! b0 := getUint8 buffer off in
  let! b1 := getUint8 buffer (off + 1) in
  let u := b0 + 256 * b1 in
  Ok (if 32768 <=? u then u - 65536 else u).

(** [view.getInt32(off, true)] *)
Definition getInt32 (buffer : list byte) (off : Z) : res Z :=
  let! b0 := getUint8 buffer off in
  let! b1 := getUint8 buffer (off + 1) in
  let! b2 := getUint8 buffer (off + 2) in
  let! b3 := getUint8 buffer (off + 3) in
  let u := b0 + 256 * b1 + 65536 * b2 + 16777216 * b3 in
  Ok (if 2147483648 <=? u then u - 4294967296 else u).

(** [new Float32Array(n)]: zero-filled, [RangeError] for a negative length
    (allocation failure for huge lengths is not modelled). *)
Definition Float32Array (n : Z) : res (list Q) :=
  if n <? 0 then Throw RangeError else Ok (replicate (Z.to_nat n) 0%Q).

(** ** IEEE 754 rounding, to nearest with ties to even

    [pow2 e] is [2^e] for any integer [e]. *)
Definition pow2 (e : Z) : Q :=
  if 0 <=? e then inject_Z (2 ^ e) else (1 # Z.to_pos (2 ^ (- e)))%Q.

(** [floor (log2 x)] for [x > 0]: with [x = a / b], [2^e] below is within a
    factor 2 of [x]. *)
Definition floor_log2 (x : Q) : Z :=
  let e := Z.log2 (Qnum x) - Z.log2 (Zpos (Qden x)) in
  if Qle_bool (pow2 e) x then e else e - 1.

(** The integer nearest to [m], the even one on a tie. *)
Definition round_half_even (m : Q) : Z :=
  let n := Qfloor m in
  let f := (m - inject_Z n)%Q in
  if negb (Qle_bool f (1 # 2)) then n + 1
  else if negb (Qle_bool (1 # 2) f) then n
  else if Z.even n then n else n + 1.

(** Rounding [x > 0] to a [prec]-bit significand whose last bit weighs
    [2^e], with [e >= emin] (subnormals); overflow to infinity is not
    modelled (the decoder stores values of magnitude at most 32.768). *)
Definition round_pos (prec emin : Z) (x : Q) : Q :=
  let e := Z.max (floor_log2 x - (prec - 1)) emin in
  (inject_Z (round_half_even (x / pow2 e)) * pow2 e)%Q.

Definition round_binary (prec emin : Z) (x : Q) : Q :=
  if Qle_bool x 0 then
    if Qle_bool 0 x then 0%Q else (- round_pos prec emin (- x))%Q
  else round_pos prec emin x.

(** [a / b] on two integer-valued numbers: the binary64 quotient. *)
Definition div_f64 (a b : Z) : Q := round_binary 53 (-1074) (inject_Z a / inject_Z b).

(** Storing a number into a [Float32Array]: rounding to binary32. *)
Definition Float32_store (x : Q) : Q := round_binary 24 (-149) x.

(** [new Uint8Array(buffer, offset, len)]: a view, [RangeError] when it
    does not lie inside the buffer. *)
Definition Uint8Array (buffer : list byte) (offset len : Z) : res (list byte) :=
  if (0 <=? offset) && (0 <=? len) && (offset + len <=? Z.of_nat (length buffer))
  then Ok (take (Z.to_nat len) (drop (Z.to_nat offset) buffer))
  else Throw RangeError.

(* ------------------------------------------------------------------ *)
(** ** JSON values and the decoded snapshot *)

Inductive json :=
| JNull
| JBool (b : bool)
| JNum (q : Q)
| JStr (s : string)
| JArr (l : list json)
| JObj (l : list (string * json)).

(** [interface LssnapData]; [annotations] holds whatever [JSON.parse]
    returned (typed [Annotation[]] in the source, unchecked at run time). *)
Record LssnapData := {
  vertexCount : Z;
  positions : list Q;
  colors : list Q;
  annotations : json
}.

(** The code units of [String.fromCharCode(b0, b1, b2)] compared with the
    code units of ['LSS']. *)
Definition LSS : list Z := [76; 83; 83].

Definition list_Z_eqb (a b : list Z) : bool :=
  bool_decide (a = b).

Section Decoder.

(** [new TextDecoder().decode(bytes)] followed by [JSON.parse]: platform
    built-ins, not code of this repository; [None] when [JSON.parse]
    throws. *)
Variable JSON_parse_utf8 : list byte -> option json.

(** The vertex loop, lines 37-45 (and 339-347): [n] iterations left,
    index [i], running [offset].  Each value is the double quotient
    [getInt16(..) / 1000.0] or [getUint8(..) / 255.0], rounded to binary32
    when stored.  Typed-array stores out of range are ignored, as stdpp's
    list insert does. *)
Fixpoint vertex_loop (buffer : list byte) (n : nat) (i : Z)
    (positions colors : list Q) (offset : Z) : res (list Q * list Q * Z) :=
  match n with
  | O => Ok (positions, colors, offset)
  | S n' =>
      let! x := getInt16 buffer offset in
      let positions := <[Z.to_nat (i * 3) := Float32_store (div_f64 x 1000)]> positions in
      let! y := getInt16 buffer (offset + 2) in
      let positions := <[Z.to_nat (i * 3 + 1) := Float32_store (div_f64 y 1000)]> positions in
      let! z := getInt16 buffer (offset + 4) in
      let positions := <[Z.to_nat (i * 3 + 2) := Float32_store (div_f64 z 1000)]> positions in
      let! r := getUint8 buffer (offset + 6) in
      let colors := <[Z.to_nat (i * 3) := Float32_store (div_f64 r 255)]> colors in
      let! g := getUint8 buffer (offset + 7) in
      let colors := <[Z.to_nat (i * 3 + 1) := Float32_store (div_f64 g 255)]> colors in
      let! b := getUint8 buffer (offset + 8) in
      let colors := <[Z.to_nat (i * 3 + 2) := Float32_store (div_f64 b 255)]> colors in
      vertex_loop buffer n' (i + 1) positions colors (offset + 9)
  end.

(** The [try { ... } catch { }] of lines 48-51. *)
Definition annotation_block (buffer : list byte) (offset annotJsonLen : Z) : json :=
  let attempt :=
    let! bytes := Uint8Array buffer offset annotJsonLen in
    match JSON_parse_utf8 bytes with
    | Some v => Ok v
    | None => Throw SyntaxError
    end in
  match attempt with
  | Ok v => v
  | Throw _ => JArr []
  end.

(** [parseLssnap] after the header check, lines 32-53 (334-355). *)
Definition parseLssnap_body (buffer : list byte) : res LssnapData :=
  let! vertexCount := getInt32 buffer 4 in
  let! annotJsonLen := getInt32 buffer 8 in
  let! positions := Float32Array (vertexCount * 3) in
  let! colors := Float32Array (vertexCount * 3) in
  let! loop := vertex_loop buffer (Z.to_nat vertexCount) 0 positions colors 16 in
  let '(positions, colors, offset) := loop in
  let annotations :=
    if 0 <? annotJsonLen then annotation_block buffer offset annotJsonLen
    else JArr [] in
  Ok {| vertexCount := vertexCount; positions := positions;
        colors := colors; annotations := annotations |}.

(** [parseLssnap], lines 25-54 (identical at 327-356). *)
Definition parseLssnap (buffer : list byte) : res LssnapData :=
  let! m0 := getUint8 buffer 0 in
  let! m1 := getUint8 buffer 1 in
  let! m2 := getUint8 buffer 2 in
  let magic := [m0; m1; m2] in
  let! version := getUint8 buffer 3 in
  if negb (list_Z_eqb magic LSS) || negb (version =? 1)
  then Throw (FormatError magic version)
  else parseLssnap_body buffer.

End Decoder.

(* ------------------------------------------------------------------ *)
(** ** Reading the spec's wire layout *)

(** The 4-byte header the spec prescribes: ["LSS"] then version [1]. *)
Definition spec_header : list byte := [x4c; x53; x53; x01].

(** Little-endian two's-complement 16-bit encoding (the spec's int16). *)
Definition byte_of_Z (z : Z) : byte :=
  match Byte.of_N (Z.to_N (z mod 256)) with
  | Some b => b
  | None => x00
  end.

Definition le_int16 (k : Z) : list byte :=
  let u := k mod 65536 in [byte_of_Z u; byte_of_Z (u / 256)].

Definition le_int32 (k : Z) : list byte :=
  let u := k mod 4294967296 in
  [byte_of_Z u; byte_of_Z (u / 256); byte_of_Z (u / 65536); byte_of_Z (u / 16777216)].

(* ------------------------------------------------------------------ *)
(** ** A JSON reader for concrete runs

    [parseLssnap] takes [TextDecoder] + [JSON.parse] as a parameter.  For
    evaluating it on concrete buffers we use this reader of the ASCII part
    of JSON (literals, integers and decimals without exponent, strings
    without escapes, arrays and objects); it refuses inputs outside that
    part, and on the inputs it accepts it returns what [JSON.parse]
    returns. *)

Fixpoint skip_ws (l : list byte) : list byte :=
  match l with
  | (" " | "009" | "010" | "013")%byte :: r => skip_ws r
  | _ => l
  end.

Definition digit (b : byte) : option Z :=
  let n := u8 b in if (48 <=? n) && (n <=? 57) then Some (n - 48) else None.

(** Digits [0-9]*, as (value, count, rest). *)
Fixpoint digits (acc : Z) (k : nat) (l : list byte) : Z * nat * list byte :=
  match l with
  | b :: r => match digit b with
              | Some d => digits (acc * 10 + d) (S k) r
              | None => (acc, k, l)
              end
  | [] => (acc, k, l)
  end.

Definition parse_unsigned (l : list byte) : option (Q * list byte) :=
  let '(ip, ki, r) :=
    match l with
    | "0"%byte :: r => (0, 1%nat, r)
    | _ => digits 0 0 l
    end in
  if (ki =? 0)%nat then None else
  match r with
  | "."%byte :: r' =>
      let '(fp, kf, r'') := digits 0 0 r' in
      if (kf =? 0)%nat then None else
      match r'' with
      | ("e" | "E")%byte :: _ => None
      | _ => Some ((inject_Z ip + inject_Z fp / inject_Z (10 ^ Z.of_nat kf))%Q, r'')
      end
  | ("e" | "E")%byte :: _ => None
  | _ => Some (inject_Z ip, r)
  end.

(** String body up to the closing quote: printable ASCII, no escapes. *)
Fixpoint parse_chars (l : list byte) : option (string * list byte) :=
  match l with
  | x22 (* the quote character *) :: r => Some (EmptyString, r)
  | "\"%byte :: _ => None
  | b :: r =>
      if (32 <=? u8 b) && (u8 b <? 128) then
        match parse_chars r with
        | Some (s, r') => Some (String (Ascii.ascii_of_byte b) s, r')
        | None => None
        end
      else None
  | [] => None
  end.

Fixpoint parse_value (fuel : nat) (l : list byte) : option (json * list byte) :=
  match fuel with
  | O => None
  | S fuel =>
    match skip_ws l with
    | "n"%byte :: "u"%byte :: "l"%byte :: "l"%byte :: r => Some (JNull, r)
    | "t"%byte :: "r"%byte :: "u"%byte :: "e"%byte :: r => Some (JBool true, r)
    | "f"%byte :: "a"%byte :: "l"%byte :: "s"%byte :: "e"%byte :: r =>
        Some (JBool false, r)
    | x22 (* the quote character *) :: r =>
        match parse_chars r with Some (s, r') => Some (JStr s, r') | None => None end
    | "-"%byte :: r =>
        match parse_unsigned r with Some (q, r') => Some (JNum (- q)%Q, r') | None => None end
    | "["%byte :: r =>
        match skip_ws r with
        | "]"%byte :: r' => Some (JArr [], r')
        | _ =>
          match parse_elems fuel r with
          | Some (vs, r') => Some (JArr vs, r')
          | None => None
          end
        end
    | "{"%byte :: r =>
        match skip_ws r with
        | "}"%byte :: r' => Some (JObj [], r')
        | _ =>
          match parse_members fuel r with
          | Some (ms, r') => Some (JObj ms, r')
          | None => None
          end
        end
    | l' =>
        match parse_unsigned l' with Some (q, r') => Some (JNum q, r') | None => None end
    end
  end
(** [value (',' value)* ']'] *)
with parse_elems (fuel : nat) (l : list byte) : option (list json * list byte) :=
  match fuel with
  | O => None
  | S fuel =>
    match parse_value fuel l with
    | Some (v, r) =>
        match skip_ws r with
        | ","%byte :: r' =>
            match parse_elems fuel r' with
            | Some (vs, r'') => Some (v :: vs, r'')
            | None => None
            end
        | "]"%byte :: r' => Some ([v], r')
        | _ => None
        end
    | None => None
    end
  end
(** [string ':' value (',' string ':' value)* '}'] *)
with parse_members (fuel : nat) (l : list byte) : option (list (string * json) * list byte) :=
  match fuel with
  | O => None
  | S fuel =>
    match skip_ws l with
    | x22 (* the quote character *) :: r =>
      match parse_chars r with
      | Some (k, r1) =>
        match skip_ws r1 with
        | ":"%byte :: r2 =>
          match parse_value fuel r2 with
          | Some (v, r3) =>
              match skip_ws r3 with
              | ","%byte :: r4 =>
                  match parse_members fuel r4 with
                  | Some (ms, r5) => Some ((k, v) :: ms, r5)
                  | None => None
                  end
              | "}"%byte :: r4 => Some ([(k, v)], r4)
              | _ => None
              end
          | None => None
          end
        | _ => None
        end
      | None => None
      end
    | _ => None
    end
  end.

Definition JSON_parse_ascii (bytes : list byte) : option json :=
  match parse_value (S (length bytes)) bytes with
  | Some (v, r) => match skip_ws r with [] => Some v | _ => None end
  | None => None
  end.

Definition bytes_of_string (s : string) : list byte :=
  map Ascii.byte_of_ascii (String.list_ascii_of_string s).

(* ------------------------------------------------------------------ *)
(** ** The wire layout written from the spec (for the round trip)

    A point to encode: metre coordinates and byte colours.  The encoder
    follows the spec's layout table: header, int32 vertex count, int32
    annotation length (0 here), 4 reserved bytes, then one 9-byte record
    per point (int16 x, y, z scaled by 1000, then r, g, b). *)
Record spec_point := {
  px : Q; py : Q; pz : Q;
  cr : Z; cg : Z; cb : Z
}.

(** Metres to the int16 millimetre value: [x * 1000] rounded. *)
Definition to_fixed (x : Q) : Z := Qfloor (x * 1000 + 1 / 2).

Definition spec_record (p : spec_point) : list byte :=
  le_int16 (to_fixed (px p)) ++ le_int16 (to_fixed (py p)) ++ le_int16 (to_fixed (pz p)) ++
  [byte_of_Z (cr p); byte_of_Z (cg p); byte_of_Z (cb p)].

Definition spec_encode (pts : list spec_point) : list byte :=
  spec_header ++ le_int32 (Z.of_nat (length pts)) ++ le_int32 0 ++ [x00; x00; x00; x00] ++
  flat_map spec_record pts.

(** A coordinate that is an exact multiple of 0.001 within +-32.767. *)
Definition mm_exact (x : Q) : Prop :=
  exists k : Z, (x == inject_Z k / 1000)%Q /\ -32767 <= k <= 32767.

Definition valid_point (p : spec_point) : Prop :=
  mm_exact (px p) /\ mm_exact (py p) /\ mm_exact (pz p) /\
  0 <= cr p <= 255 /\ 0 <= cg p <= 255 /\ 0 <= cb p <= 255.

Definition spec_coords (p : spec_point) : list Q := [px p; py p; pz p].

Definition spec_ratios (p : spec_point) : list Q :=
  [(inject_Z (cr p) / 255)%Q; (inject_Z (cg p) / 255)%Q; (inject_Z (cb p) / 255)%Q].

(** What the decoder stores for a point's colour bytes: each [byte / 255]
    as a double, rounded to binary32. *)
Definition spec_f32_ratios (p : spec_point) : list Q :=
  [Float32_store (div_f64 (cr p) 255); Float32_store (div_f64 (cg p) 255);
   Float32_store (div_f64 (cb p) 255)].

(** The two points of the spec's round-trip example. *)
Definition example_points : list spec_point :=
  [ {| px := 1; py := 2; pz := -3; cr := 255; cg := 0; cb := 0 |};
    {| px := 0; py := 0; pz := 0; cr := 0; cg := 255; cb := 0 |} ].

(** A point at the origin with colour byte 1 in its red channel. *)
Definition dim_red_point : spec_point :=
  {| px := 0; py := 0; pz := 0; cr := 1; cg := 0; cb := 0 |}.

(* ------------------------------------------------------------------ *)
(** ** three.js vectors and bounding boxes

    [Vector3] as a record of exact rationals.  A [Box3] is [None] when it
    is empty (after [makeEmpty]: min = +Infinity, max = -Infinity) and
    [Some (min, max)] otherwise. *)
Record vec3 := mkv { vx : Q; vy : Q; vz : Q }.

#[export] Instance Q_inhabited : Inhabited Q := populate 0%Q.

(** [Vector3.min] and [Vector3.max], component by component. *)
Definition vmin (a b : vec3) : vec3 :=
  mkv (Qmin (vx a) (vx b)) (Qmin (vy a) (vy b)) (Qmin (vz a) (vz b)).
Definition vmax (a b : vec3) : vec3 :=
  mkv (Qmax (vx a) (vx b)) (Qmax (vy a) (vy b)) (Qmax (vz a) (vz b)).

Definition box3 : Type := option (vec3 * vec3).

(** [Box3.expandByPoint]. *)
Definition expandByPoint (b : box3) (p : vec3) : box3 :=
  match b with
  | None => Some (p, p)
  | Some (mn, mx) => Some (vmin mn p, vmax mx p)
  end.

(** [BufferAttribute(array, 3)]: [getX(i)], [getY(i)], [getZ(i)]. *)
Definition getXYZ (arr : list Q) (i : nat) : vec3 :=
  mkv (arr !!! (i * 3)%nat) (arr !!! (i * 3 + 1)%nat) (arr !!! (i * 3 + 2)%nat).

Fixpoint box_loop (arr : list Q) (count i : nat) (b : box3) : box3 :=
  match count with
  | O => b
  | S n => box_loop arr n (S i) (expandByPoint b (getXYZ arr i))
  end.

(** [BufferGeometry.computeBoundingBox] over a position attribute of item
    size 3 ([Box3.setFromBufferAttribute]): [count = array.length / 3];
    every array this viewer builds has a length that is a multiple of 3. *)
Definition computeBoundingBox (arr : list Q) : box3 :=
  box_loop arr (length arr / 3)%nat 0 None.

(** [Box3.getCenter] and [Box3.getSize]: zero for the empty box. *)
Definition getCenter (b : box3) : vec3 :=
  match b with
  | None => mkv 0 0 0
  | Some (mn, mx) =>
      mkv ((vx mn + vx mx) * (1#2)) ((vy mn + vy mx) * (1#2)) ((vz mn + vz mx) * (1#2))
  end.

Definition getSize (b : box3) : vec3 :=
  match b with
  | None => mkv 0 0 0
  | Some (mn, mx) => mkv (vx mx - vx mn) (vy mx - vy mn) (vz mx - vz mn)
  end.

(* ------------------------------------------------------------------ *)
(** ** The subject filter (the "right-side person" quadrant)

    The loop over [vi < data.vertexCount]: a point is pushed, with its
    colour, when [x >= xCut && z <= zCut && y >= yCutMax]. *)
Fixpoint filter_loop (positions colors : list Q) (xCut zCut yCutMax : Q)
    (n vi : nat) (filtPos filtCol : list Q) : list Q * list Q :=
  match n with
  | O => (filtPos, filtCol)
  | S n' =>
      let x := positions !!! (vi * 3)%nat in
      let y := positions !!! (vi * 3 + 1)%nat in
      let z := positions !!! (vi * 3 + 2)%nat in
      if Qle_bool xCut x && Qle_bool z zCut && Qle_bool yCutMax y then
        filter_loop positions colors xCut zCut yCutMax n' (S vi)
          (filtPos ++ [x; y; z])
          (filtCol ++ [colors !!! (vi * 3)%nat; colors !!! (vi * 3 + 1)%nat; colors !!! (vi * 3 + 2)%nat])
      else filter_loop positions colors xCut zCut yCutMax n' (S vi) filtPos filtCol
  end.

(** The filter block, with the two fractions of the variants as
    parameters: [zCut = fullBox.min.z + fullSize.z * depthFraction] and
    [yCutMax = fullBox.min.y + fullSize.y * heightFraction].  An empty
    [fullBox] only arises when there is no point ([vertexCount = 0] for a
    decoded snapshot), so nothing is pushed; its infinite cuts are not
    rationals, and that case returns the empty arrays directly. *)
Definition subject_filter (depthFraction heightFraction : Q) (data : LssnapData)
    : list Q * list Q :=
  let fullBox := computeBoundingBox (positions data) in
  match fullBox with
  | None => ([], [])
  | Some (mn, _) =>
      let fullCenter := getCenter fullBox in
      let fullSize := getSize fullBox in
      let xCut := vx fullCenter in
      let zCut := (vz mn + vz fullSize * depthFraction)%Q in
      let yCutMax := (vy mn + vy fullSize * heightFraction)%Q in
      filter_loop (positions data) (colors data) xCut zCut yCutMax
        (Z.to_nat (vertexCount data)) 0 [] []
  end.

(** Orbit variant: [zCut] at 0.75 and [yCutMax] at 0.45. *)
Definition orbit_filter (data : LssnapData) : list Q * list Q :=
  subject_filter (3#4) (45#100) data.

(** Trackball variant: with [filter], 0.75 and 0.5; without it the decoded
    arrays are used as they are. *)
Definition trackball_points (filter : bool) (data : LssnapData) : list Q * list Q :=
  if filter then subject_filter (3#4) (1#2) data else (positions data, colors data).

(** The spec's description of the filter: point [i] is kept iff
    [x_i >= centerX], [z_i <= minZ + zRange * depthFraction] and
    [y_i >= minY + yRange * heightFraction]; kept points and colours are
    appended in order. *)
Definition spec_keep (mn mx : vec3) (depthFraction heightFraction : Q) (p : vec3) : bool :=
  Qle_bool ((vx mn + vx mx) / 2) (vx p) &&
  Qle_bool (vz p) (vz mn + (vz mx - vz mn) * depthFraction) &&
  Qle_bool (vy mn + (vy mx - vy mn) * heightFraction) (vy p).

(** The points at the indices [idx], kept by [keep], with their colours,
    in index order. *)
Definition filtered_by (keep : vec3 -> bool) (positions colors : list Q) (idx : list nat)
    : list Q * list Q :=
  (flat_map (fun i => if keep (getXYZ positions i)
                      then [vx (getXYZ positions i); vy (getXYZ positions i); vz (getXYZ positions i)]
                      else []) idx,
   flat_map (fun i => if keep (getXYZ positions i)
                      then [colors !!! (i * 3)%nat; colors !!! (i * 3 + 1)%nat;
                            colors !!! (i * 3 + 2)%nat]
                      else []) idx).

Definition le3 (a b : vec3) : Prop := (vx a <= vx b /\ vy a <= vy b /\ vz a <= vz b)%Q.

(** [mn] and [mx] are the least and greatest coordinates of the points
    [pts], axis by axis, each one reached by some point. *)
Definition is_bounding_box (pts : list vec3) (mn mx : vec3) : Prop :=
  Forall (fun p => le3 mn p /\ le3 p mx) pts /\
  (exists p, In p pts /\ vx p = vx mn) /\ (exists p, In p pts /\ vy p = vy mn) /\
  (exists p, In p pts /\ vz p = vz mn) /\ (exists p, In p pts /\ vx p = vx mx) /\
  (exists p, In p pts /\ vy p = vy mx) /\ (exists p, In p pts /\ vz p = vz mx).

(** The cube example's predicate: [x >= 5], [z <= 7.5], [y >= 5]. *)
Definition cube_keep (p : vec3) : bool :=
  Qle_bool 5 (vx p) && Qle_bool (vz p) (15#2) && Qle_bool 5 (vy p).

(** A grid on [0,10]^3 with step 2.5, as a decoded snapshot (positions in
    x, y, z order, colours all zero). *)
Definition grid_axis : list Q := [0; 5#2; 5; 15#2; 10]%Q.

Definition cube_grid_positions : list Q :=
  flat_map (fun x => flat_map (fun y => flat_map (fun z => [x; y; z]) grid_axis) grid_axis)
    grid_axis.

Definition cube_grid : LssnapData :=
  {| vertexCount := 125; positions := cube_grid_positions;
     colors := replicate 375%nat 0%Q; annotations := JArr [] |}.

(* ------------------------------------------------------------------ *)
(** ** Camera framing

    The camera pose as the framing code leaves it: position, up vector,
    the point [camera.lookAt] was last called with ([None] before any
    call), and [controls.target].  The [controls.update()] that follows
    is modelled for the orbit variant by [orbit_update] below; for the
    trackball variant, with no input pending, it leaves this pose as it
    is. *)
Record view := {
  cam_position : vec3;
  cam_up : vec3;
  cam_looking_at : option vec3;
  controls_target : vec3
}.

(** [Math.max(size.x, size.y, size.z)]. *)
Definition maxDim3 (size : vec3) : Q := Qmax (Qmax (vx size) (vy size)) (vz size).

(** Both variants start from [camera.position.set(0, 1, 3)] with the
    default up vector [(0, 1, 0)]. *)
Definition initial_view : view :=
  {| cam_position := mkv 0 1 3; cam_up := mkv 0 1 0; cam_looking_at := None;
     controls_target := mkv 0 0 0 |}.

(** Orbit variant (Policy A): target = center, then
    [camera.position.set(center.x - maxDim * 0.1, center.y + maxDim * 0.25,
    center.z + maxDim * 1.6)], then [camera.lookAt(center)]. *)
Definition frame_orbit (v : view) (filtPositions : list Q) : view :=
  let box := computeBoundingBox filtPositions in
  let center := getCenter box in
  let size := getSize box in
  let maxDim := maxDim3 size in
  {| controls_target := center;
     cam_up := cam_up v;
     cam_position := mkv (vx center - maxDim * (1#10))%Q (vy center + maxDim * (1#4))%Q
                         (vz center + maxDim * (8#5))%Q;
     cam_looking_at := Some center |}.

(** Trackball variant (Policy B): target = center, [camera.up.set(0, 0, 1)],
    [camera.position.set(center.x - maxDim * 0.5, center.y - maxDim * 2.8,
    center.z)], then [camera.lookAt(center)]. *)
Definition frame_trackball (v : view) (finalPositions : list Q) : view :=
  let box := computeBoundingBox finalPositions in
  let center := getCenter box in
  let size := getSize box in
  let maxDim := maxDim3 size in
  {| controls_target := center;
     cam_up := mkv 0 0 1;
     cam_position := mkv (vx center - maxDim * (1#2))%Q (vy center - maxDim * (14#5))%Q
                         (vz center);
     cam_looking_at := Some center |}.

(** Component-wise equality of rationals. *)
Definition veq (a b : vec3) : Prop :=
  (vx a == vx b /\ vy a == vy b /\ vz a == vz b)%Q.

(** [Vector3.add]. *)
Definition vadd (a b : vec3) : vec3 := mkv (vx a + vx b) (vy a + vy b) (vz a + vz b).

(** A unit box centred at the origin: its two opposite corners. *)
Definition unit_box_positions : list Q :=
  [-1#2; -1#2; -1#2; 1#2; 1#2; 1#2]%Q.

(* ------------------------------------------------------------------ *)
(** ** The annotation overlay

    [interface Annotation]: [type], [positions] (checked for presence by
    the builder, hence an option), optional [radius] and [color]. *)
Record Annotation := {
  ann_type : string;
  ann_positions : option (list Q);
  ann_radius : option Q;
  ann_color : option (Q * Q * Q)
}.

Definition rgb : Type := (Q * Q * Q)%type.

(** What the builder adds to [annGroup].  [CircleLine] is the 65-vertex
    loop [(x + cos t * radius, y + sin t * radius, z)] for
    [t = i / 64 * 2 pi], determined by its centre and radius.  A
    [Polyline] vertex reads [positions[i]], [positions[i+1]],
    [positions[i+2]], which are [undefined] ([None]) past the end. *)
Inductive primitive :=
| SphereMesh (radius x y z : Q) (color : rgb)
| CircleLine (x y z radius : Q) (color : rgb)
| Polyline (pts : list (option Q * option Q * option Q)) (color : rgb).

(** [for (let i = 0; i < positions.length; i += 3) pts.push(...)]; the
    fuel bounds the number of iterations. *)
Fixpoint freehand_loop (ps : list Q) (fuel i : nat) : list (option Q * option Q * option Q) :=
  match fuel with
  | O => []
  | S f =>
      if (i <? length ps)%nat
      then (ps !! i, ps !! (i + 1)%nat, ps !! (i + 2)%nat) :: freehand_loop ps f (i + 3)%nat
      else []
  end.

Definition freehand_points (ps : list Q) : list (option Q * option Q * option Q) :=
  freehand_loop ps (length ps) 0.

(** The body of [for (const ann of data.annotations)]. *)
Definition build_annotation (ann : Annotation) : list primitive :=
  match ann_positions ann with
  | None => []
  | Some ps =>
      if (length ps <? 3)%nat then [] else
      let color : rgb :=
        match ann_color ann with
        | Some (r, g, b) => ((r / 255)%Q, (g / 255)%Q, (b / 255)%Q)
        | None => (1%Q, (2#5), (2#5))
        end in
      if String.eqb (ann_type ann) "point"%string then
        let radius := match ann_radius ann with
                      | Some r => if Qlt_le_dec (1#100) r then r else (12#100)
                      | None => (12#100)
                      end in
        [SphereMesh (radius * (3#10)) (ps !!! 0%nat) (ps !!! 1%nat) (ps !!! 2%nat) color]
      else if String.eqb (ann_type ann) "circle"%string then
        let radius := match ann_radius ann with
                      | Some r => if Qlt_le_dec 0 r then r else (5#100)
                      | None => (5#100)
                      end in
        [CircleLine (ps !!! 0%nat) (ps !!! 1%nat) (ps !!! 2%nat) radius color]
      else if String.eqb (ann_type ann) "freehand"%string && (6 <=? length ps)%nat then
        [Polyline (freehand_points ps) color]
      else []
  end.

Fixpoint build_loop (anns : list Annotation) (annGroup : list primitive) : list primitive :=
  match anns with
  | [] => annGroup
  | ann :: rest => build_loop rest (annGroup ++ build_annotation ann)
  end.

Definition build_overlay (anns : list Annotation) : list primitive := build_loop anns [].

(** When the spec's words say an annotation contributes nothing: its
    positions are missing or hold fewer than 3 values, its type is none of
    the three kinds, or it is a freehand with fewer than 6 values. *)
Definition overlay_skips (ann : Annotation) : Prop :=
  match ann_positions ann with
  | None => True
  | Some ps =>
      (length ps < 3)%nat \/
      (ann_type ann <> "point"%string /\ ann_type ann <> "circle"%string /\
       ann_type ann <> "freehand"%string) \/
      (ann_type ann = "freehand"%string /\ (length ps < 6)%nat)
  end.

(** The spec's malformed example and a well-formed sibling. *)
Definition short_freehand : Annotation :=
  {| ann_type := "freehand"; ann_positions := Some [1; 2]%Q; ann_radius := None;
     ann_color := None |}.

Definition sample_point : Annotation :=
  {| ann_type := "point"; ann_positions := Some [1; 2; 3]%Q; ann_radius := Some (1#2);
     ann_color := Some (255%Q, 0%Q, 0%Q) |}.

(** A freehand whose 7 values are not a multiple of 3. *)
Definition seven_value_freehand : Annotation :=
  {| ann_type := "freehand"; ann_positions := Some [1; 2; 3; 4; 5; 6; 7]%Q;
     ann_radius := None; ann_color := None |}.

(* ------------------------------------------------------------------ *)
(** ** The per-frame autorotation of the trackball variant

    The state [animate] reads and writes: the [s.autoRotating] flag, the
    camera position and up vector, and [controls.target].  [s.camera] and
    [s.controls] are set before the first frame, so the guard reduces to
    the flag.  [controls.update()] (TrackballControls, library code) is a
    parameter; [renderer.render] does not change this state. *)
Record rvec := mkr { rx : R; ry : R; rz : R }.

Record frame_state := {
  autoRotating : bool;
  camera_position : rvec;
  camera_up : rvec;
  target : rvec
}.

Section Animate.

Variable controls_update : frame_state -> frame_state.

(** [const angle = 0.0005]. *)
Definition autorotate_angle : R := (5 / 10000)%R.

(** The body of [if (s.autoRotating && s.camera && s.controls)]. *)
Definition auto_rotate (s : frame_state) : frame_state :=
  let tgt := target s in
  let pos := camera_position s in
  let dx := (rx pos - rx tgt)%R in
  let dz := (rz pos - rz tgt)%R in
  let angle := autorotate_angle in
  let c := cos angle in
  let sn := sin angle in
  {| autoRotating := autoRotating s;
     camera_position := mkr (rx tgt + dx * c - dz * sn)%R (ry pos) (rz tgt + dx * sn + dz * c)%R;
     camera_up := camera_up s;
     target := tgt |}.

(** One call of [animate]: the autorotation, then [controls.update()]. *)
Definition animate (s : frame_state) : frame_state :=
  let s1 := if autoRotating s then auto_rotate s else s in
  controls_update s1.

End Animate.

(** The state right after Policy B framing: up [+Z], a target at the
    origin, the camera on the x axis, autorotation on. *)
Definition z_up_state : frame_state :=
  {| autoRotating := true; camera_position := mkr 1 0 0; camera_up := mkr 0 0 1;
     target := mkr 0 0 0 |}.

(* ------------------------------------------------------------------ *)
(** ** [OrbitControls.update()] in the orbit variant

    The orbit variant sets [enableDamping = true], [dampingFactor = 0.08],
    [autoRotate = true] and [autoRotateSpeed = 0.25] (lines 104-107), calls
    [controls.update()] on every frame (line 114, first at line 117) and
    once more right after framing (line 186), before it captures
    [s.initialPos] (line 187).  The controls' state that matters here:
    camera position, [target], the point [camera.lookAt] was last called
    with, and the pending azimuth step [sphericalDelta.theta]. *)
Record orbit_state := {
  orbit_position : rvec;
  orbit_target : rvec;
  orbit_looking_at : option rvec;
  sphericalDelta_theta : R
}.

Definition dampingFactor : R := (8 / 100)%R.

Definition autoRotateSpeed : R := (25 / 100)%R.

(** [_getAutoRotationAngle(null)] ([update()] gets no [deltaTime]):
    [2 * PI / 60 / 60 * autoRotateSpeed]. *)
Definition autoRotationAngle : R := (2 * PI / 60 / 60 * autoRotateSpeed)%R.

(** three.js's [OrbitControls.update()] on the path these settings take
    with no user input (state [NONE], no pan or zoom pending, up [+Y] so
    the up quaternion is the identity, unbounded azimuth and distance):
    [rotateLeft(autoRotationAngle)] subtracts the angle from
    [sphericalDelta.theta]; the damped step adds
    [sphericalDelta.theta * dampingFactor] to the azimuth [theta] of the
    offset [position - target] ([theta = atan2(x, z)] about [+Y]), keeping
    its radius and polar angle; [position = target + offset];
    [lookAt(target)]; [sphericalDelta.theta *= 1 - dampingFactor].  In
    Cartesian coordinates the azimuth step turns the offset about [+Y]:
    [x' = x cos a + z sin a], [z' = z cos a - x sin a].  ([makeSafe] keeps
    the polar angle within [[1e-6, PI - 1e-6]]; every offset met here is
    either zero or far from the vertical, so it does not act.) *)
Definition orbit_update (s : orbit_state) : orbit_state :=
  let t := orbit_target s in
  let p := orbit_position s in
  let ox := (rx p - rx t)%R in
  let oy := (ry p - ry t)%R in
  let oz := (rz p - rz t)%R in
  let delta := (sphericalDelta_theta s - autoRotationAngle)%R in
  let a := (delta * dampingFactor)%R in
  {| orbit_position := mkr (rx t + (ox * cos a + oz * sin a)) (ry t + oy)
                           (rz t + (oz * cos a - ox * sin a));
     orbit_target := t;
     orbit_looking_at := Some t;
     sphericalDelta_theta := (delta * (1 - dampingFactor))%R |}.

(** After mounting: the camera at [(0, 1, 3)], the controls' default
    target [(0, 0, 0)], no step pending. *)
Definition orbit_mount : orbit_state :=
  {| orbit_position := mkr 0 1 3; orbit_target := mkr 0 0 0; orbit_looking_at := None;
     sphericalDelta_theta := 0 |}.

Definition Q2Rv (v : vec3) : rvec := mkr (Q2R (vx v)) (Q2R (vy v)) (Q2R (vz v)).

(** The pose captured at lines 187-188 when the data arrives after
    [frames] calls of [animate], with no user input: lines 182-185 as
    [frame_orbit], then [controls.update()] (line 186). *)
Definition orbit_initial_pose (frames : nat) (filtPositions : list Q) : orbit_state :=
  let s := Nat.iter frames orbit_update orbit_mount in
  let v := frame_orbit initial_view filtPositions in
  orbit_update {| orbit_position := Q2Rv (cam_position v);
                  orbit_target := Q2Rv (controls_target v);
                  orbit_looking_at := option_map Q2Rv (cam_looking_at v);
                  sphericalDelta_theta := sphericalDelta_theta s |}.

(** A buffer whose annotation block is the text [{}]: it parses, but to an
    object, not to a list of annotations. *)
Definition object_annotation_buffer : list byte :=
  spec_header ++ le_int32 0 ++ le_int32 2 ++ [x00; x00; x00; x00] ++ bytes_of_string "{}".

(** Everything but the header check fails with [RangeError] or succeeds. *)
Definition ok_or_range {A} (r : res A) : Prop :=
  match r with
  | Ok _ | Throw RangeError => True
  | Throw _ => False
  end.

(** The three fixed-point coordinates of a point fit in an int16. *)
Definition fits_int16 (p : spec_point) : Prop :=
  -32768 <= to_fixed (px p) < 32768 /\ -32768 <= to_fixed (py p) < 32768 /\
  -32768 <= to_fixed (pz p) < 32768.

(** Two buffers of the same length that differ at most in the reserved
    header bytes 12-15. *)
Definition agree_outside_reserved (b b' : list byte) : Prop :=
  length b = length b' /\ forall i : nat, (i < 12 \/ 16 <= i)%nat -> b !! i = b' !! i.

(** A decoded coordinate: the binary32 rounding of [k / 1000] for an
    int16 [k], within [0.00001] of [k / 1000]; a decoded colour channel:
    the binary32 rounding of [c / 255] for a byte [c], in [[0, 1]] and
    within [0.0000001] of [c / 255]. *)
Definition decoded_coord (q : Q) : Prop :=
  exists k, -32768 <= k <= 32767 /\ (q == Float32_store (div_f64 k 1000))%Q /\
    (Qabs (q - inject_Z k / 1000) <= 1 # 100000)%Q.

Definition decoded_channel (q : Q) : Prop :=
  exists c, 0 <= c <= 255 /\ (q == Float32_store (div_f64 c 255))%Q /\
    (0 <= q <= 1)%Q /\ (Qabs (q - inject_Z c / 255) <= 1 # 10000000)%Q.

(** Checking [f] on [lo], [lo + 1], ..., [lo + n - 1]. *)
Fixpoint all_from (f : Z -> bool) (lo : Z) (n : nat) : bool :=
  match n with
  | O => true
  | S n' => f lo && all_from f (lo + 1) n'
  end.

(** The rounding error of a stored coordinate, and of a stored colour
    channel together with its range. *)
Definition coord_ok (k : Z) : bool :=
  Qle_bool (Qabs (Float32_store (div_f64 k 1000) - inject_Z k / 1000)) (1 # 100000).

Definition channel_ok (c : Z) : bool :=
  let q := Float32_store (div_f64 c 255) in
  Qle_bool 0 q && Qle_bool q 1 &&
  Qle_bool (Qabs (q - inject_Z c / 255)) (1 # 10000000).

(** The colour an overlay primitive is drawn with. *)
Definition primitive_color (p : primitive) : rgb :=
  match p with
  | SphereMesh _ _ _ _ c | CircleLine _ _ _ _ c | Polyline _ c => c
  end.

(** A [THREE.Color] whose channels lie in [[0, 1]]. *)
Definition unit_rgb (c : rgb) : Prop :=
  let '(r, g, b) := c in (0 <= r <= 1 /\ 0 <= g <= 1 /\ 0 <= b <= 1)%Q.

(** An annotation whose colour, when present, has channels in [[0, 255]]. *)
Definition byte_color (ann : Annotation) : Prop :=
  match ann_color ann with
  | Some (r, g, b) => (0 <= r <= 255 /\ 0 <= g <= 255 /\ 0 <= b <= 255)%Q
  | None => True
  end.

(** A sphere of radius above 0.003, a circle of positive radius, a line
    through at least two vertices. *)
Definition drawable (p : primitive) : Prop :=
  match p with
  | SphereMesh radius _ _ _ _ => (3#1000 < radius)%Q
  | CircleLine _ _ _ radius _ => (0 < radius)%Q
  | Polyline pts _ => (2 <= length pts)%nat
  end.

(* ------------------------------------------------------------------ *)
(** ** The size in the stats line

    [formatBytes] with the two builtins it relies on,
    [Number.prototype.toString] on integers and
    [Number.prototype.toFixed(1)].  Byte counts are integers; for the safe
    integers ([|bytes| < 2^53]) the quotients [bytes / 1024] and
    [bytes / 1048576] are exact doubles, so exact rationals model them. *)

(** The code unit of the decimal digit [d]. *)
Definition digit_char (d : N) : ascii := ascii_of_N (48 + d).

(** The decimal digits of [n], most significant first; the fuel bounds the
    number of digits. *)
Fixpoint decimal_fuel (fuel : nat) (n : N) : string :=
  match fuel with
  | O => EmptyString
  | S f =>
      if (n <? 10)%N then String (digit_char n) EmptyString
      else String.append (decimal_fuel f (n / 10)) (String (digit_char (n mod 10)) EmptyString)
  end.

(** [n] has fewer decimal digits than bits, plus one for [0]. *)
Definition decimal (n : N) : string := decimal_fuel (S (N.to_nat (N.size n))) n.

(** [Number::toString] of an integer. *)
Definition number_to_string (z : Z) : string :=
  if z <? 0 then String.append "-" (decimal (Z.to_N (- z))) else decimal (Z.to_N z).

Fixpoint zeros (k : nat) : string :=
  match k with O => EmptyString | S k' => String "0" (zeros k') end.

(** [x.toFixed(1)] for [|x| < 10^21]: the sign; [n], the integer for which [n / 10 - x] is closest to zero,
    the larger one on a tie; its digits [m] ("0" for [n = 0]), padded with
    zeros to at least two; and a dot before the last digit.  The branch
    of [toFixed] for [|x| >= 10^21] (the exponent notation of [ToString])
    is not modelled; [formatBytes] reaches it only from [1048576 * 10^21]
    bytes on, far beyond the safe integers (below [2^53]) for which the
    byte counts are modelled as exact integers, and the theorems about
    [formatBytes] stay below it. *)
Definition toFixed1 (x : Q) : string :=
  let '(s, x) := if Qle_bool 0 x then (EmptyString, x) else ("-"%string, (- x)%Q) in
  let n := Qfloor (x * 10 + (1 # 2)) in
  let m := if n =? 0 then "0"%string else decimal (Z.to_N n) in
  let '(m, k) := if (String.length m <=? 1)%nat
                 then (String.append (zeros (2 - String.length m)) m, 2%nat)
                 else (m, String.length m) in
  let a := String.substring 0 (k - 1) m in
  let b := String.substring (k - 1) 1 m in
  String.append s (String.append a (String.append "." b)).

(** [formatBytes]; [bytes + ' B'] converts [bytes] with [toString]. *)
Definition formatBytes (bytes : Z) : string :=
  if bytes <? 1024 then String.append (number_to_string bytes) " B"
  else if bytes <? 1048576 then String.append (toFixed1 (inject_Z bytes / 1024)) " KB"
  else String.append (toFixed1 (inject_Z bytes / 1048576)) " MB".

(** [parseInt(string)] with no radix, on a header value (code units
    0-255).  The white space it skips: TAB, LF, VT, FF, CR, SPACE and
    NO-BREAK SPACE. *)
Definition is_str_whitespace (c : ascii) : bool :=
  let n := N_of_ascii c in
  ((9 <=? n) && (n <=? 13) || (n =? 32) || (n =? 160))%N.

Fixpoint trim_start (s : string) : string :=
  match s with
  | EmptyString => EmptyString
  | String c s' => if is_str_whitespace c then trim_start s' else s
  end.

(** The value of a digit in radix up to 36: [0-9], [a-z], [A-Z]. *)
Definition digit_value (c : ascii) : option N :=
  let n := N_of_ascii c in
  if ((48 <=? n) && (n <=? 57))%N then Some (n - 48)%N
  else if ((97 <=? n) && (n <=? 122))%N then Some (n - 87)%N
  else if ((65 <=? n) && (n <=? 90))%N then Some (n - 55)%N
  else None.

(** The longest prefix of radix-[R] digits. *)
Fixpoint take_digits (R : N) (s : string) : list N :=
  match s with
  | EmptyString => []
  | String c s' =>
      match digit_value c with
      | Some d => if (d <? R)%N then d :: take_digits R s' else []
      | None => []
      end
  end.

Definition digits_value (R : N) (ds : list N) : N :=
  fold_left (fun acc d => acc * R + d)%N ds 0%N.

(** Leading white space, an optional sign, an optional [0x]/[0X] prefix
    (radix 16, else radix 10), then the longest digit prefix; [None] is
    [NaN] (no digit).  The integer is exact: the approximation the
    standard allows past 20 significant digits is not modelled, and [-0]
    is [0] (both are falsy, which is all the caller tests). *)
Definition parseInt (input : string) : option Z :=
  let s := trim_start input in
  let sign := match s with
              | String c _ => if Ascii.eqb c "-" then -1 else 1
              | EmptyString => 1
              end in
  let s := match s with
           | String c r => if Ascii.eqb c "-" || Ascii.eqb c "+" then r else s
           | EmptyString => s
           end in
  let '(R, s) := match s with
                 | String c0 (String c1 r) =>
                     if Ascii.eqb c0 "0" && (Ascii.eqb c1 "x" || Ascii.eqb c1 "X")
                     then (16%N, r) else (10%N, s)
                 | _ => (10%N, s)
                 end in
  match take_digits R s with
  | [] => None
  | ds => Some (sign * Z.of_N (digits_value R ds))
  end.

(** [byteLength = parseInt(r.headers.get('content-length') || '0')]: a
    missing ([null]) or empty header reads as ['0']. *)
Definition initial_byteLength (header : option string) : option Z :=
  parseInt (match header with
            | Some h => if String.eqb h "" then "0" else h
            | None => "0"
            end).

(** [byteLength = byteLength || buffer.byteLength]: [NaN] and [0] fall back
    to the length of the received buffer.  The stats line shows
    [formatBytes] of this value. *)
Definition byteLength (header : option string) (bufferByteLength : Z) : Z :=
  match initial_byteLength header with
  | Some n => if n =? 0 then bufferByteLength else n
  | None => bufferByteLength
  end.

(* ------------------------------------------------------------------ *)
(** ** The toolbar buttons

    What [handleBgToggle] and [handleAutoRotate] read and write, once the
    effect has run: [s.darkBg], whether [s.scene] is set and its
    [background] ([Some 0x0a0a0f] for the colour, [None] for [null]), the
    text of the background button, whether [s.controls] is set, the
    autorotation flag ([controls.autoRotate] in the orbit variant,
    [s.autoRotating] in the trackball variant) and the text of the
    autorotation button.  Nothing else writes these fields while the
    effect stays mounted. *)
Record toolbar := {
  darkBg : bool;
  scene_set : bool;
  background : option Z;
  bg_label : string;
  controls_set : bool;
  rotating : bool;
  rotate_label : string
}.

Inductive variant := Orbit | Trackball.

(** After mounting: [darkBg: false], [scene.background = null], the
    button texts of the JSX ([Dark Bg], [Auto-Rotate: ON]), and autorotation
    on ([controls.autoRotate = true] in the orbit variant, the initial
    [autoRotating: true] in the trackball variant). *)
Definition initial_toolbar : toolbar :=
  {| darkBg := false; scene_set := true; background := None; bg_label := "Dark Bg";
     controls_set := true; rotating := true; rotate_label := "Auto-Rotate: ON" |}.

(** [handleBgToggle], the same in both variants. *)
Definition handleBgToggle (t : toolbar) : toolbar :=
  let dark := negb (darkBg t) in
  {| darkBg := dark;
     scene_set := scene_set t;
     background := if scene_set t then (if dark then Some 0x0a0a0f else None) else background t;
     bg_label := if dark then "Clear" else "Dark";
     controls_set := controls_set t;
     rotating := rotating t;
     rotate_label := rotate_label t |}.

(** [handleAutoRotate]: the orbit variant does nothing while
    [s.controls] is unset; the trackball variant flips its own flag. *)
Definition handleAutoRotate (v : variant) (t : toolbar) : toolbar :=
  let flip t :=
    let r := negb (rotating t) in
    {| darkBg := darkBg t; scene_set := scene_set t; background := background t;
       bg_label := bg_label t; controls_set := controls_set t; rotating := r;
       rotate_label := String.append "Auto-Rotate: " (if r then "ON" else "OFF") |} in
  match v with
  | Orbit => if controls_set t then flip t else t
  | Trackball => flip t
  end.

Inductive click := BgClick | RotateClick.

Definition on_click (v : variant) (t : toolbar) (c : click) : toolbar :=
  match c with
  | BgClick => handleBgToggle t
  | RotateClick => handleAutoRotate v t
  end.

Definition run_clicks (v : variant) (cs : list click) : toolbar :=
  fold_left (on_click v) cs initial_toolbar.

Definition count_clicks (c : click) (cs : list click) : nat :=
  length (List.filter (fun c' => match c, c' with
                                 | BgClick, BgClick | RotateClick, RotateClick => true
                                 | _, _ => false
                                 end) cs).

(* ================================================================== *)
(** * Proofs *)

(* ------------------------------------------------------------------ *)
(** ** Lemmas on the DataView reads *)

Lemma res_bind_ok_or_range {A B} (m : res A) (k : A -> res B) :
  ok_or_range m -> (forall a, ok_or_range (k a)) -> ok_or_range (res_bind m k).
Proof. destruct m as [a|[]]; simpl; auto. Qed.

Lemma u8_bound (b : byte) : 0 <= u8 b < 256.
Proof. unfold u8. pose proof (Byte.to_N_bounded b). lia. Qed.

Lemma u8_inj (b c : byte) : u8 b = u8 c -> b = c.
Proof.
  unfold u8; intros H. apply N2Z.inj in H.
  pose proof (Byte.of_to_N b) as Hb. pose proof (Byte.of_to_N c) as Hc.
  rewrite H in Hb. congruence.
Qed.

Lemma getUint8_in (buffer : list byte) (i : Z) :
  0 <= i < Z.of_nat (length buffer) ->
  getUint8 buffer i = Ok (u8 (buffer !!! Z.to_nat i)).
Proof.
  intros Hi. unfold getUint8. destruct (Z.ltb_spec i 0); [lia|].
  destruct (lookup_lt_is_Some_2 buffer (Z.to_nat i)) as [b Hb]; [lia|].
  rewrite Hb. by rewrite (list_lookup_total_correct _ _ _ Hb).
Qed.

Lemma getUint8_out (buffer : list byte) (i : Z) :
  ~ (0 <= i < Z.of_nat (length buffer)) -> getUint8 buffer i = Throw RangeError.
Proof.
  intros Hi. unfold getUint8. destruct (Z.ltb_spec i 0); [done|].
  rewrite lookup_ge_None_2; [done|lia].
Qed.

Lemma getUint8_ok_or_range buffer i : ok_or_range (getUint8 buffer i).
Proof.
  destruct (decide (0 <= i < Z.of_nat (length buffer))).
  - by rewrite getUint8_in.
  - by rewrite getUint8_out.
Qed.

Lemma getInt16_ok_or_range buffer off : ok_or_range (getInt16 buffer off).
Proof.
  unfold getInt16. apply res_bind_ok_or_range; [apply getUint8_ok_or_range|intros].
  apply res_bind_ok_or_range; [apply getUint8_ok_or_range|done].
Qed.

Lemma getInt32_ok_or_range buffer off : ok_or_range (getInt32 buffer off).
Proof.
  unfold getInt32.
  repeat (apply res_bind_ok_or_range; [apply getUint8_ok_or_range|intros]). done.
Qed.

Lemma Float32Array_ok_or_range n : ok_or_range (Float32Array n).
Proof. unfold Float32Array. by destruct (n <? 0). Qed.

Create HintDb lssnap.
#[export] Hint Resolve res_bind_ok_or_range getUint8_ok_or_range getInt16_ok_or_range
  getInt32_ok_or_range Float32Array_ok_or_range : lssnap.

Lemma vertex_loop_ok_or_range buffer n i p c off :
  ok_or_range (vertex_loop buffer n i p c off).
Proof.
  revert i p c off. induction n as [|n IH]; intros; simpl; [done|].
  repeat (apply res_bind_ok_or_range; [auto with lssnap|intros]). apply IH.
Qed.

(** After a successful header check the decoder only fails with [RangeError]. *)
Lemma parseLssnap_body_ok_or_range P buffer :
  ok_or_range (parseLssnap_body P buffer).
Proof.
  unfold parseLssnap_body.
  repeat (apply res_bind_ok_or_range; [auto using vertex_loop_ok_or_range with lssnap|intros]).
  by destruct a3 as [[??]?].
Qed.

(* ------------------------------------------------------------------ *)
(** ** C1: the header check *)

Lemma header_reads P (b0 b1 b2 b3 : byte) (rest : list byte) :
  parseLssnap P (b0 :: b1 :: b2 :: b3 :: rest) =
  if negb (list_Z_eqb [u8 b0; u8 b1; u8 b2] LSS) || negb (u8 b3 =? 1)
  then Throw (FormatError [u8 b0; u8 b1; u8 b2] (u8 b3))
  else parseLssnap_body P (b0 :: b1 :: b2 :: b3 :: rest).
Proof. reflexivity. Qed.

Lemma header_check_iff (b0 b1 b2 b3 : byte) :
  negb (list_Z_eqb [u8 b0; u8 b1; u8 b2] LSS) || negb (u8 b3 =? 1) = false <->
  [b0; b1; b2; b3] = spec_header.
Proof.
  unfold list_Z_eqb, LSS, spec_header. rewrite orb_false_iff, !negb_false_iff,
    bool_decide_eq_true, Z.eqb_eq.
  split.
  - intros [H3 H4]. injection H3 as E0 E1 E2.
    apply (u8_inj b0 x4c) in E0. apply (u8_inj b1 x53) in E1.
    apply (u8_inj b2 x53) in E2. apply (u8_inj b3 x01) in H4. by subst.
  - intros H. injection H as -> -> -> ->. done.
Qed.

Lemma short_buffer_range P (buffer : list byte) :
  (length buffer < 4)%nat -> parseLssnap P buffer = Throw RangeError.
Proof. intros H. do 4 (destruct buffer as [|? buffer]; [done|]). simpl in H. lia. Qed.

(** C1 (amended): for every buffer of at least four bytes, decoding throws the
    format error exactly when the first three bytes are not ["LSS"] or the
    fourth is not [1], whatever follows; a buffer shorter than four bytes
    throws a [RangeError] instead. *)
Theorem parseLssnap_format_error_iff (P : list byte -> option json) (buffer : list byte) :
  ((length buffer < 4)%nat -> parseLssnap P buffer = Throw RangeError) /\
  ((4 <= length buffer)%nat ->
   is_format_error (parseLssnap P buffer) = true <-> take 4 buffer <> spec_header).
Proof.
  split; [apply short_buffer_range|]. intros Hlen.
  destruct buffer as [|b0 [|b1 [|b2 [|b3 rest]]]]; simpl in Hlen; try lia.
  rewrite header_reads. simpl take.
  destruct (negb _ || negb _) eqn:E.
  - split; [|done]. intros _ Hh. apply header_check_iff in Hh. congruence.
  - apply header_check_iff in E. split; [|done]. intros Hf.
    pose proof (parseLssnap_body_ok_or_range P (b0 :: b1 :: b2 :: b3 :: rest)) as Hr.
    destruct (parseLssnap_body _ _) as [|[]]; done.
Qed.

Lemma parseLssnap_format_error_iff_witness :
  (length [x4c; x53; x53; x02] < 4 -> True)%nat /\
  (4 <= length [x4c; x53; x53; x02])%nat /\
  is_format_error (parseLssnap JSON_parse_ascii [x4c; x53; x53; x02]) = true.
Proof.
  split; [done|]. split; [simpl; lia|].
  apply (proj2 (parseLssnap_format_error_iff JSON_parse_ascii [x4c; x53; x53; x02])).
  - simpl; lia.
  - vm_compute. discriminate.
Defined.

(** C1 as stated fails on the 3-byte buffer ["ABC"]: its first three bytes
    are not ["LSS"], yet the read of the version byte throws a [RangeError]
    before the header is checked. *)
Lemma C1_three_byte_buffer_counterexample :
  parseLssnap JSON_parse_ascii [x41; x42; x43] = Throw RangeError /\
  ~ (forall buffer : list byte,
       take 3 buffer <> [x4c; x53; x53] \/ buffer !! 3%nat <> Some x01 ->
       is_format_error (parseLssnap JSON_parse_ascii buffer) = true).
Proof.
  split; [reflexivity|]. intros H.
  assert (Hne : take 3 [x41; x42; x43] <> [x4c; x53; x53]) by (vm_compute; discriminate).
  specialize (H [x41; x42; x43] (or_introl Hne)).
  vm_compute in H. discriminate.
Qed.

(* ------------------------------------------------------------------ *)
(** ** The vertex loop: when it succeeds, and what it leaves *)

Lemma res_bind_range {A B} (m : res A) (k : A -> res B) :
  ok_or_range m -> (forall a, k a = Throw RangeError) -> res_bind m k = Throw RangeError.
Proof. destruct m as [a|[]]; simpl; auto; done. Qed.

Lemma getInt16_in buffer off :
  0 <= off -> off + 2 <= Z.of_nat (length buffer) ->
  exists v, getInt16 buffer off = Ok v.
Proof.
  intros. unfold getInt16. rewrite !getUint8_in by lia. by eexists.
Qed.

Lemma getUint8_in_ex buffer off :
  0 <= off -> off + 1 <= Z.of_nat (length buffer) ->
  exists v, getUint8 buffer off = Ok v.
Proof. intros. rewrite getUint8_in by lia. by eexists. Qed.

Lemma vertex_loop_spec buffer n :
  forall i p c off, 0 <= off ->
  ((n = 0%nat \/ off + 9 * Z.of_nat n <= Z.of_nat (length buffer)) ->
   exists p' c', vertex_loop buffer n i p c off = Ok (p', c', off + 9 * Z.of_nat n) /\
                 length p' = length p /\ length c' = length c) /\
  (~ (n = 0%nat \/ off + 9 * Z.of_nat n <= Z.of_nat (length buffer)) ->
   vertex_loop buffer n i p c off = Throw RangeError).
Proof.
  induction n as [|n IH]; intros i p c off Hoff.
  { split; [|intros H; exfalso; apply H; by left]. intros _. exists p, c.
    replace (off + 9 * Z.of_nat 0) with off by lia. done. }
  split.
  - intros [Hn|Hfit]; [done|].
    cbn [vertex_loop].
    destruct (getInt16_in buffer off) as [x Hx]; [lia|lia|]. rewrite Hx. cbn [res_bind].
    destruct (getInt16_in buffer (off + 2)) as [y Hy]; [lia|lia|]. rewrite Hy. cbn [res_bind].
    destruct (getInt16_in buffer (off + 4)) as [z Hz]; [lia|lia|]. rewrite Hz. cbn [res_bind].
    destruct (getUint8_in_ex buffer (off + 6)) as [r Hr]; [lia|lia|]. rewrite Hr. cbn [res_bind].
    destruct (getUint8_in_ex buffer (off + 7)) as [g Hg]; [lia|lia|]. rewrite Hg. cbn [res_bind].
    destruct (getUint8_in_ex buffer (off + 8)) as [b Hb]; [lia|lia|]. rewrite Hb. cbn [res_bind].
    assert (Hoff' : 0 <= off + 9) by lia.
    assert (Hfit' : n = 0%nat \/ off + 9 + 9 * Z.of_nat n <= Z.of_nat (length buffer)) by lia.
    destruct (proj1 (IH (i + 1) (<[Z.to_nat (i * 3 + 2):=Float32_store (div_f64 z 1000)]>
      (<[Z.to_nat (i * 3 + 1):=Float32_store (div_f64 y 1000)]>
         (<[Z.to_nat (i * 3):=Float32_store (div_f64 x 1000)]> p)))
      (<[Z.to_nat (i * 3 + 2):=Float32_store (div_f64 b 255)]>
      (<[Z.to_nat (i * 3 + 1):=Float32_store (div_f64 g 255)]>
         (<[Z.to_nat (i * 3):=Float32_store (div_f64 r 255)]> c))) (off + 9) Hoff') Hfit')
      as (p' & c' & Hl & Hp & Hc).
    exists p', c'. replace (off + 9 * Z.of_nat (S n)) with (off + 9 + 9 * Z.of_nat n) by lia.
    rewrite Hl. split; [done|].
    rewrite Hp, Hc, !length_insert. done.
  - intros Hno. cbn [vertex_loop].
    destruct (decide (off + 9 <= Z.of_nat (length buffer))) as [Hfit|Hfit].
    + destruct (getInt16_in buffer off) as [x Hx]; [lia|lia|]. rewrite Hx. cbn [res_bind].
      destruct (getInt16_in buffer (off + 2)) as [y Hy]; [lia|lia|]. rewrite Hy. cbn [res_bind].
      destruct (getInt16_in buffer (off + 4)) as [z Hz]; [lia|lia|]. rewrite Hz. cbn [res_bind].
      destruct (getUint8_in_ex buffer (off + 6)) as [r Hr]; [lia|lia|]. rewrite Hr. cbn [res_bind].
      destruct (getUint8_in_ex buffer (off + 7)) as [g Hg]; [lia|lia|]. rewrite Hg. cbn [res_bind].
      destruct (getUint8_in_ex buffer (off + 8)) as [b Hb]; [lia|lia|]. rewrite Hb. cbn [res_bind].
      apply (IH (i + 1)); [lia|]. lia.
    + do 5 (apply res_bind_range; [auto with lssnap|intros ?]).
      rewrite getUint8_out by lia. done.
Qed.

Lemma vertex_loop_ok_lengths buffer n i p c off p' c' off' :
  0 <= off -> vertex_loop buffer n i p c off = Ok (p', c', off') ->
  length p' = length p /\ length c' = length c /\ off' = off + 9 * Z.of_nat n /\
  (n = 0%nat \/ off + 9 * Z.of_nat n <= Z.of_nat (length buffer)).
Proof.
  intros Hoff Hl. destruct (vertex_loop_spec buffer n i p c off Hoff) as [Hyes Hno].
  destruct (decide (n = 0%nat \/ off + 9 * Z.of_nat n <= Z.of_nat (length buffer))) as [Hc|Hc].
  - destruct (Hyes Hc) as (p'' & c'' & Heq & Hp & Hcl). rewrite Hl in Heq.
    injection Heq as -> -> ->. auto.
  - rewrite (Hno Hc) in Hl. discriminate.
Qed.

(** Unfolding a successful decode. *)
Lemma parseLssnap_Ok P buffer d :
  parseLssnap P buffer = Ok d ->
  exists vc len p c off,
    take 4 buffer = spec_header /\
    getInt32 buffer 4 = Ok vc /\ getInt32 buffer 8 = Ok len /\ 0 <= vc /\
    vertex_loop buffer (Z.to_nat vc) 0 (replicate (Z.to_nat (vc * 3)) 0%Q)
      (replicate (Z.to_nat (vc * 3)) 0%Q) 16 = Ok (p, c, off) /\
    d = {| vertexCount := vc; positions := p; colors := c;
           annotations := if 0 <? len then annotation_block P buffer off len
                          else JArr [] |}.
Proof.
  intros H.
  destruct buffer as [|b0 [|b1 [|b2 [|b3 rest]]]]; try discriminate.
  rewrite header_reads in H.
  destruct (negb _ || negb _) eqn:E; [discriminate|]. apply header_check_iff in E.
  unfold parseLssnap_body in H.
  destruct (getInt32 _ 4) as [vc|] eqn:Hvc; [|discriminate]. cbn [res_bind] in H.
  destruct (getInt32 _ 8) as [len|] eqn:Hlen; [|discriminate]. cbn [res_bind] in H.
  unfold Float32Array in H. destruct (Z.ltb_spec (vc * 3) 0); [discriminate|].
  cbn [res_bind] in H.
  destruct (vertex_loop _ _ _ _ _ _) as [[[p c] off]|] eqn:Hloop; [|discriminate].
  cbn [res_bind] in H. injection H as <-.
  exists vc, len, p, c, off. repeat split; auto; lia.
Qed.

(** C2: every snapshot the decoder returns has [3 * vertexCount] position
    values and [3 * vertexCount] colour values, where [vertexCount] is the
    int32 at bytes 4-7 of the buffer. *)
Theorem parseLssnap_lengths (P : list byte -> option json) (buffer : list byte)
    (d : LssnapData) :
  parseLssnap P buffer = Ok d ->
  getInt32 buffer 4 = Ok (vertexCount d) /\
  Z.of_nat (length (positions d)) = 3 * vertexCount d /\
  Z.of_nat (length (colors d)) = 3 * vertexCount d.
Proof.
  intros H. destruct (parseLssnap_Ok P buffer d H)
    as (vc & len & p & c & off & _ & Hvc & _ & Hpos & Hloop & ->).
  apply vertex_loop_ok_lengths in Hloop as (Hp & Hc & _); [|lia].
  simpl. rewrite Hp, Hc, length_replicate. split; [done|lia].
Qed.

Lemma parseLssnap_lengths_witness :
  match parseLssnap JSON_parse_ascii (spec_encode example_points) with
  | Ok d =>
      getInt32 (spec_encode example_points) 4 = Ok (vertexCount d) /\
      Z.of_nat (length (positions d)) = 3 * vertexCount d /\
      Z.of_nat (length (colors d)) = 3 * vertexCount d
  | Throw _ => False
  end.
Proof.
  assert (E : exists d, parseLssnap JSON_parse_ascii (spec_encode example_points) = Ok d)
    by (eexists; vm_compute; reflexivity).
  destruct E as [d E]. rewrite E.
  exact (parseLssnap_lengths JSON_parse_ascii (spec_encode example_points) d E).
Defined.

(* ------------------------------------------------------------------ *)
(** ** C3: the round trip through the wire layout *)

(** The rounding errors of the stored values, checked over all int16
    counts and all bytes. *)
Lemma all_from_spec (f : Z -> bool) (lo : Z) (n : nat) :
  all_from f lo n = true -> forall k, lo <= k < lo + Z.of_nat n -> f k = true.
Proof.
  revert lo. induction n as [|n IH]; intros lo H k Hk; [lia|].
  cbn [all_from] in H. apply andb_true_iff in H as [H1 H2].
  destruct (Z.eq_dec k lo) as [->|Hne]; [exact H1|].
  apply (IH (lo + 1) H2). lia.
Qed.

Lemma coord_ok_all : all_from coord_ok (-32768) (Z.to_nat 65536) = true.
Proof. vm_compute. reflexivity. Qed.

Lemma channel_ok_all : all_from channel_ok 0 256 = true.
Proof. vm_compute. reflexivity. Qed.

Lemma coord_close (k : Z) :
  -32768 <= k <= 32767 ->
  (Qabs (Float32_store (div_f64 k 1000) - inject_Z k / 1000) <= 1 # 100000)%Q.
Proof.
  intros Hk. apply Qle_bool_iff.
  apply (all_from_spec coord_ok (-32768) (Z.to_nat 65536) coord_ok_all). lia.
Qed.

Lemma channel_close (c : Z) :
  0 <= c <= 255 ->
  (0 <= Float32_store (div_f64 c 255) <= 1)%Q /\
  (Qabs (Float32_store (div_f64 c 255) - inject_Z c / 255) <= 1 # 10000000)%Q.
Proof.
  intros Hc. pose proof (all_from_spec channel_ok 0 256 channel_ok_all c ltac:(lia)) as H.
  unfold channel_ok in H. apply andb_true_iff in H as [H H3]. apply andb_true_iff in H as [H1 H2].
  apply Qle_bool_iff in H1, H2, H3. auto.
Qed.

#[local] Arguments u8 : simpl never.
#[local] Arguments byte_of_Z : simpl never.

Lemma u8_byte_of_Z z : u8 (byte_of_Z z) = z mod 256.
Proof.
  unfold byte_of_Z, u8.
  pose proof (Z.mod_pos_bound z 256 ltac:(lia)) as Hb.
  destruct (Byte.of_N (Z.to_N (z mod 256))) as [b|] eqn:E.
  - apply Byte.to_of_N in E. rewrite E. lia.
  - apply Byte.of_N_None_iff in E. lia.
Qed.

Lemma int16_roundtrip k :
  -32768 <= k < 32768 ->
  (let u := (k mod 65536) mod 256 + 256 * ((k mod 65536 / 256) mod 256) in
   if 32768 <=? u then u - 65536 else u) = k.
Proof.
  intros Hk. cbv zeta.
  assert (E : (k mod 65536) mod 256 + 256 * ((k mod 65536 / 256) mod 256) = k mod 65536).
  { Z.div_mod_to_equations. nia. }
  rewrite E. destruct (Z.leb_spec 32768 (k mod 65536)); Z.div_mod_to_equations; lia.
Qed.

Lemma int32_roundtrip k :
  0 <= k < 2147483648 ->
  (let u := (k mod 4294967296) mod 256 + 256 * ((k mod 4294967296 / 256) mod 256) +
            65536 * ((k mod 4294967296 / 65536) mod 256) +
            16777216 * ((k mod 4294967296 / 16777216) mod 256) in
   if 2147483648 <=? u then u - 4294967296 else u) = k.
Proof.
  intros Hk. cbv zeta. rewrite (Z.mod_small k) by lia.
  assert (E : k mod 256 + 256 * ((k / 256) mod 256) + 65536 * ((k / 65536) mod 256) +
              16777216 * ((k / 16777216) mod 256) = k).
  { Z.div_mod_to_equations. nia. }
  rewrite E. destruct (Z.leb_spec 2147483648 k); lia.
Qed.

Lemma getUint8_app (pre rest : list byte) (j : Z) :
  0 <= j -> getUint8 (pre ++ rest) (Z.of_nat (length pre) + j) = getUint8 rest j.
Proof.
  intros Hj. unfold getUint8.
  destruct (Z.ltb_spec (Z.of_nat (length pre) + j) 0); [lia|].
  destruct (Z.ltb_spec j 0); [lia|].
  replace (Z.to_nat (Z.of_nat (length pre) + j)) with (length pre + Z.to_nat j)%nat by lia.
  rewrite lookup_app_r by lia. by rewrite Nat.add_comm, Nat.add_sub.
Qed.

Lemma getInt16_app (pre rest : list byte) (j : Z) :
  0 <= j -> getInt16 (pre ++ rest) (Z.of_nat (length pre) + j) = getInt16 rest j.
Proof.
  intros Hj. unfold getInt16. rewrite <- Z.add_assoc, !getUint8_app by lia. done.
Qed.

Lemma getInt16_le_int16 (k : Z) (rest : list byte) :
  -32768 <= k < 32768 -> getInt16 (le_int16 k ++ rest) 0 = Ok k.
Proof.
  intros Hk. unfold getInt16, le_int16.
  unfold getUint8. simpl. rewrite !u8_byte_of_Z. f_equal.
  by apply int16_roundtrip.
Qed.

(** One encoded record read back at its offset. *)
Lemma record_reads (pre rest : list byte) (p : spec_point) :
  fits_int16 p ->
  let buf := pre ++ spec_record p ++ rest in
  let o := Z.of_nat (length pre) in
  getInt16 buf o = Ok (to_fixed (px p)) /\ getInt16 buf (o + 2) = Ok (to_fixed (py p)) /\
  getInt16 buf (o + 4) = Ok (to_fixed (pz p)) /\
  getUint8 buf (o + 6) = Ok (cr p mod 256) /\ getUint8 buf (o + 7) = Ok (cg p mod 256) /\
  getUint8 buf (o + 8) = Ok (cb p mod 256).
Proof.
  intros (Hx & Hy & Hz) buf o. subst buf o. unfold spec_record.
  rewrite <- (Z.add_0_r (Z.of_nat (length pre))) at 1.
  rewrite !getInt16_app, !getUint8_app by lia.
  rewrite <- !app_assoc.
  split; [by apply getInt16_le_int16|].
  split; [change 2 with (Z.of_nat (length (le_int16 (to_fixed (px p)))) + 0);
          rewrite getInt16_app, getInt16_le_int16 by lia; done|].
  split; [change 4 with (Z.of_nat (length (le_int16 (to_fixed (px p)) ++
                                           le_int16 (to_fixed (py p)))) + 0);
          rewrite app_assoc, getInt16_app, getInt16_le_int16 by lia; done|].
  unfold getUint8. simpl. rewrite !u8_byte_of_Z. done.
Qed.

Lemma insert3 {A} (l r : list A) (z a b c : A) (n : nat) :
  length l = n ->
  <[(n + 2)%nat := c]> (<[(n + 1)%nat := b]> (<[(n + 0)%nat := a]> (l ++ z :: z :: z :: r))) =
  l ++ a :: b :: c :: r.
Proof. intros <-. rewrite !insert_app_r. done. Qed.

Lemma vertex_loop_records (pts : list spec_point) :
  forall (pre post : list byte) (dp dc : list Q) (i : nat),
  Forall fits_int16 pts ->
  length dp = (3 * i)%nat -> length dc = (3 * i)%nat ->
  vertex_loop (pre ++ flat_map spec_record pts ++ post) (length pts) (Z.of_nat i)
    (dp ++ replicate (3 * length pts) 0%Q) (dc ++ replicate (3 * length pts) 0%Q)
    (Z.of_nat (length pre)) =
  Ok (dp ++ flat_map (fun p => [Float32_store (div_f64 (to_fixed (px p)) 1000);
                                Float32_store (div_f64 (to_fixed (py p)) 1000);
                                Float32_store (div_f64 (to_fixed (pz p)) 1000)]) pts,
      dc ++ flat_map (fun p => [Float32_store (div_f64 (cr p mod 256) 255);
                                Float32_store (div_f64 (cg p mod 256) 255);
                                Float32_store (div_f64 (cb p mod 256) 255)]) pts,
      Z.of_nat (length pre) + 9 * Z.of_nat (length pts)).
Proof.
  induction pts as [|p pts IH]; intros pre post dp dc i Hfit Hdp Hdc.
  { cbn [flat_map length vertex_loop]. rewrite !app_nil_r.
    replace (Z.of_nat (length pre) + 9 * Z.of_nat 0) with (Z.of_nat (length pre)) by lia.
    done. }
  inversion Hfit as [|? ? Hp Hpts]; subst.
  cbn [flat_map length vertex_loop]. rewrite <- (app_assoc (spec_record p)).
  destruct (record_reads pre (flat_map spec_record pts ++ post) p Hp)
    as (H1 & H2 & H3 & H4 & H5 & H6).
  rewrite H1; cbn [res_bind]. rewrite H2; cbn [res_bind]. rewrite H3; cbn [res_bind].
  rewrite H4; cbn [res_bind]. rewrite H5; cbn [res_bind]. rewrite H6; cbn [res_bind].
  replace (3 * S (length pts))%nat with (S (S (S (3 * length pts)))) by lia.
  cbn [replicate].
  replace (Z.to_nat (Z.of_nat i * 3)) with (3 * i + 0)%nat by lia.
  replace (Z.to_nat (Z.of_nat i * 3 + 1)) with (3 * i + 1)%nat by lia.
  replace (Z.to_nat (Z.of_nat i * 3 + 2)) with (3 * i + 2)%nat by lia.
  rewrite (insert3 dp), (insert3 dc) by done.
  assert (Hrec : length (spec_record p) = 9%nat) by reflexivity.
  pose proof (IH (pre ++ spec_record p) post
                 (dp ++ [Float32_store (div_f64 (to_fixed (px p)) 1000);
                         Float32_store (div_f64 (to_fixed (py p)) 1000);
                         Float32_store (div_f64 (to_fixed (pz p)) 1000)])
                 (dc ++ [Float32_store (div_f64 (cr p mod 256) 255);
                         Float32_store (div_f64 (cg p mod 256) 255);
                         Float32_store (div_f64 (cb p mod 256) 255)]) (S i) Hpts) as IH'.
  rewrite !length_app, Hrec, Hdp, Hdc in IH'. cbn [length] in IH'.
  rewrite <- !app_assoc in IH'. cbn [app] in IH'.
  replace (Z.of_nat (S i)) with (Z.of_nat i + 1) in IH' by lia.
  replace (Z.of_nat (length pre + 9)) with (Z.of_nat (length pre) + 9) in IH' by lia.
  rewrite IH' by lia.
  replace (Z.of_nat (length pre) + 9 * Z.of_nat (S (length pts))) with
    (Z.of_nat (length pre) + 9 + 9 * Z.of_nat (length pts)) by lia.
  done.
Qed.

Lemma getInt32_app (pre rest : list byte) (j : Z) :
  0 <= j -> getInt32 (pre ++ rest) (Z.of_nat (length pre) + j) = getInt32 rest j.
Proof.
  intros Hj. unfold getInt32. rewrite <- !Z.add_assoc, !getUint8_app by lia. done.
Qed.

Lemma getInt32_le_int32 (k : Z) (rest : list byte) :
  0 <= k < 2147483648 -> getInt32 (le_int32 k ++ rest) 0 = Ok k.
Proof.
  intros Hk. unfold getInt32, le_int32.
  unfold getUint8. simpl. rewrite !u8_byte_of_Z. f_equal.
  by apply int32_roundtrip.
Qed.

Lemma parseLssnap_header_ok P buffer :
  take 4 buffer = spec_header -> parseLssnap P buffer = parseLssnap_body P buffer.
Proof.
  intros H. destruct buffer as [|b0 [|b1 [|b2 [|b3 rest]]]]; try discriminate.
  rewrite header_reads. simpl in H.
  by rewrite (proj2 (header_check_iff b0 b1 b2 b3) H).
Qed.

Lemma to_fixed_exact (x : Q) (k : Z) : (x == inject_Z k / 1000)%Q -> to_fixed x = k.
Proof.
  intros Hx. unfold to_fixed.
  rewrite (Qfloor_comp _ ((2 * k + 1) # 2)).
  - unfold Qfloor. Z.div_mod_to_equations. lia.
  - rewrite Hx. unfold Qeq. simpl. lia.
Qed.

Lemma Forall2_flat_map {A B C} (R : B -> C -> Prop) (f : A -> list B) (g : A -> list C)
    (l : list A) :
  Forall (fun x => Forall2 R (f x) (g x)) l -> Forall2 R (flat_map f l) (flat_map g l).
Proof.
  induction 1 as [|x l Hx _ IH]; simpl; [constructor|]. by apply Forall2_app.
Qed.

Lemma valid_point_fits p : valid_point p -> fits_int16 p.
Proof.
  intros ((kx & Hx & Bx) & (ky & Hy & By) & (kz & Hz & Bz) & _).
  unfold fits_int16. rewrite (to_fixed_exact _ _ Hx), (to_fixed_exact _ _ Hy),
    (to_fixed_exact _ _ Hz). lia.
Qed.

Lemma decoded_coord_close (x : Q) :
  mm_exact x ->
  (Qabs (Float32_store (div_f64 (to_fixed x) 1000) - x) <= 1 # 100000)%Q.
Proof.
  intros (k & Hx & Hk). rewrite (to_fixed_exact _ _ Hx), Hx.
  apply coord_close. lia.
Qed.

(** C3 (as amended): encoding a point set whose coordinates are exact
    multiples of 0.001 in [-32.767, 32.767] and whose colours are bytes,
    then decoding, gives back [vertexCount] points, every coordinate
    within 0.00001 (so within 0.001) of the original, every colour channel
    equal to the binary32 rounding of the double [byte / 255], which is
    within 0.0000001 of [byte / 255], and no annotations; the spec's two
    points (1, 2, -3) and (0, 0, 0) with colours (255, 0, 0) and
    (0, 255, 0) decode to exactly those coordinates and to the ratios
    (1, 0, 0) and (0, 1, 0). *)
Theorem parseLssnap_roundtrip (P : list byte -> option json) (pts : list spec_point) :
  Z.of_nat (length pts) < 2147483648 -> Forall valid_point pts ->
  (exists d, parseLssnap P (spec_encode pts) = Ok d /\
    vertexCount d = Z.of_nat (length pts) /\
    Forall2 (fun a b => Qabs (a - b) <= 1 # 100000)%Q (positions d) (flat_map spec_coords pts) /\
    Forall2 Qeq (colors d) (flat_map spec_f32_ratios pts) /\
    Forall2 (fun a b => Qabs (a - b) <= 1 # 10000000)%Q (colors d) (flat_map spec_ratios pts) /\
    annotations d = JArr []) /\
  match parseLssnap P (spec_encode example_points) with
  | Ok d =>
      Forall2 Qeq (positions d) [1; 2; -3; 0; 0; 0]%Q /\
      Forall2 Qeq (colors d) [1; 0; 0; 0; 1; 0]%Q
  | Throw _ => False
  end.
Proof.
  intros Hn Hvalid. split.
  2:{ vm_compute. split; repeat constructor. }
  set (n := Z.of_nat (length pts)).
  set (pre := spec_header ++ le_int32 n ++ le_int32 0 ++ [x00; x00; x00; x00]).
  assert (Hbuf : spec_encode pts = pre ++ flat_map spec_record pts ++ []).
  { unfold spec_encode, pre. by rewrite app_nil_r, <- !app_assoc. }
  assert (Hpre : Z.of_nat (length pre) = 16) by reflexivity.
  rewrite parseLssnap_header_ok by reflexivity.
  unfold parseLssnap_body.
  assert (Hv : getInt32 (spec_encode pts) 4 = Ok n).
  { unfold spec_encode. change 4 with (Z.of_nat (length spec_header) + 0).
    rewrite getInt32_app, getInt32_le_int32 by lia. done. }
  assert (Ha : getInt32 (spec_encode pts) 8 = Ok 0).
  { unfold spec_encode. rewrite app_assoc.
    change 8 with (Z.of_nat (length (spec_header ++ le_int32 n)) + 0).
    rewrite getInt32_app, getInt32_le_int32 by lia. done. }
  rewrite Hv, Ha. cbn [res_bind]. unfold Float32Array.
  destruct (Z.ltb_spec (n * 3) 0); [lia|]. cbn [res_bind].
  pose proof (vertex_loop_records pts pre [] [] [] 0
                (Forall_impl _ _ _ Hvalid valid_point_fits) eq_refl eq_refl) as HL.
  rewrite <- Hbuf, Hpre, !app_nil_l in HL.
  replace (Z.to_nat (n * 3)) with (3 * length pts)%nat by lia.
  replace (Z.to_nat n) with (length pts) by lia.
  change (Z.of_nat 0) with 0 in HL.
  rewrite HL. cbn [res_bind].
  eexists. split; [reflexivity|]. simpl. split; [done|].
  split; [|split; [|split; [|done]]]; apply Forall2_flat_map; eapply Forall_impl; try exact Hvalid.
  - intros p (Hx & Hy & Hz & _). unfold spec_coords.
    repeat constructor; by apply decoded_coord_close.
  - intros p (_ & _ & _ & Hr & Hg & Hb). unfold spec_f32_ratios.
    rewrite !Z.mod_small by lia. repeat constructor.
  - intros p (_ & _ & _ & Hr & Hg & Hb). unfold spec_ratios.
    rewrite !Z.mod_small by lia.
    repeat constructor; apply channel_close; lia.
Qed.

Lemma parseLssnap_roundtrip_witness :
  (Z.of_nat (length example_points) < 2147483648 /\ Forall valid_point example_points) /\
  exists d, parseLssnap JSON_parse_ascii (spec_encode example_points) = Ok d /\
    vertexCount d = Z.of_nat (length example_points) /\
    Forall2 (fun a b => Qabs (a - b) <= 1 # 100000)%Q (positions d)
      (flat_map spec_coords example_points) /\
    Forall2 Qeq (colors d) (flat_map spec_f32_ratios example_points) /\
    Forall2 (fun a b => Qabs (a - b) <= 1 # 10000000)%Q (colors d)
      (flat_map spec_ratios example_points) /\
    annotations d = JArr [].
Proof.
  assert (H : Z.of_nat (length example_points) < 2147483648 /\
              Forall valid_point example_points).
  { split; [simpl; lia|].
    repeat constructor;
      try (exists 1000; split; [reflexivity|lia]);
      try (exists 2000; split; [reflexivity|lia]);
      try (exists (-3000); split; [reflexivity|lia]);
      try (exists 0; split; [reflexivity|lia]); simpl; lia. }
  split; [exact H|].
  apply (proj1 (parseLssnap_roundtrip JSON_parse_ascii example_points (proj1 H) (proj2 H))).
Defined.

(** C3 as stated says every colour channel decodes exactly to
    [byte / 255].  The decoder stores into a [Float32Array]: a point with
    red byte 1 decodes to the red channel [8421505 / 2^31]
    (0.0039215688593685627), which is neither [1 / 255] nor the double
    nearest to it. *)
Lemma C3_dim_red_counterexample :
  valid_point dim_red_point /\
  match parseLssnap JSON_parse_ascii (spec_encode [dim_red_point]) with
  | Ok d =>
      colors d !! 0%nat = Some (8421505 # 2147483648)%Q /\
      ~ (8421505 # 2147483648 == inject_Z 1 / 255)%Q /\
      ~ (8421505 # 2147483648 == div_f64 1 255)%Q
  | Throw _ => False
  end.
Proof.
  split.
  - unfold valid_point, dim_red_point. cbn [px py pz cr cg cb].
    repeat split; try (exists 0; split; [reflexivity|lia]); lia.
  - vm_compute. split; [reflexivity|].
    split; intros H; discriminate H.
Qed.

(* ------------------------------------------------------------------ *)
(** ** C10: range errors after a valid header *)

Lemma getInt32_in buffer off :
  0 <= off -> off + 4 <= Z.of_nat (length buffer) -> exists v, getInt32 buffer off = Ok v.
Proof. intros. unfold getInt32. rewrite !getUint8_in by lia. by eexists. Qed.

Lemma getInt32_out buffer off :
  0 <= off -> Z.of_nat (length buffer) < off + 4 -> getInt32 buffer off = Throw RangeError.
Proof.
  intros. unfold getInt32.
  do 3 (apply res_bind_range; [auto with lssnap|intros ?]).
  rewrite getUint8_out by lia. done.
Qed.

(** C10 (amended): after a valid ["LSS"]+1 header the decoder throws a
    [RangeError] (never the format error) exactly when the buffer is
    shorter than 12 bytes, or the int32 vertex count is negative, or it is
    positive and the buffer is shorter than [16 + 9 * vertexCount]; in every
    other case it returns a snapshot (a count of 0 needs only 12 bytes,
    the reserved bytes 12-15 are never read). *)
Theorem parseLssnap_range_errors (P : list byte -> option json) (buffer : list byte) :
  take 4 buffer = spec_header ->
  ((length buffer < 12)%nat -> parseLssnap P buffer = Throw RangeError) /\
  (forall vc, (12 <= length buffer)%nat -> getInt32 buffer 4 = Ok vc ->
     (parseLssnap P buffer = Throw RangeError <->
      vc < 0 \/ (0 < vc /\ Z.of_nat (length buffer) < 16 + 9 * vc)) /\
     (~ (vc < 0 \/ (0 < vc /\ Z.of_nat (length buffer) < 16 + 9 * vc)) ->
      exists d, parseLssnap P buffer = Ok d)).
Proof.
  intros Hh. rewrite parseLssnap_header_ok by done. unfold parseLssnap_body.
  split.
  { intros Hlen. apply res_bind_range; [auto with lssnap|intros ?].
    rewrite getInt32_out by lia. done. }
  intros vc Hlen Hvc. rewrite Hvc. cbn [res_bind].
  destruct (getInt32_in buffer 8) as [len Hl]; [lia|lia|]. rewrite Hl. cbn [res_bind].
  unfold Float32Array. destruct (Z.ltb_spec (vc * 3) 0) as [Hneg|Hnn].
  { cbn [res_bind]. split; [split; [intros _; lia|done]|]. intros Hc. exfalso. lia. }
  cbn [res_bind].
  destruct (vertex_loop_spec buffer (Z.to_nat vc) 0 (replicate (Z.to_nat (vc * 3)) 0%Q)
              (replicate (Z.to_nat (vc * 3)) 0%Q) 16 ltac:(lia)) as [Hyes Hno].
  destruct (decide (Z.to_nat vc = 0%nat \/
                    16 + 9 * Z.of_nat (Z.to_nat vc) <= Z.of_nat (length buffer))) as [Hc|Hc].
  - destruct (Hyes Hc) as (p & c & Hloop & _). rewrite Hloop. cbn [res_bind].
    split; [split; [discriminate|intros; lia]|]. intros _. by eexists.
  - rewrite (Hno Hc). cbn [res_bind]. split; [split; [intros _; lia|done]|].
    intros Hn. exfalso. lia.
Qed.

Lemma parseLssnap_range_errors_witness :
  take 4 (spec_header ++ le_int32 2 ++ le_int32 0 ++ [x00; x00; x00; x00]) = spec_header /\
  (12 <= length (spec_header ++ le_int32 2 ++ le_int32 0 ++ [x00; x00; x00; x00]))%nat /\
  getInt32 (spec_header ++ le_int32 2 ++ le_int32 0 ++ [x00; x00; x00; x00]) 4 = Ok 2 /\
  parseLssnap JSON_parse_ascii (spec_header ++ le_int32 2 ++ le_int32 0 ++ [x00; x00; x00; x00])
    = Throw RangeError.
Proof.
  split; [reflexivity|]. split; [simpl; lia|]. split; [reflexivity|].
  apply (proj2 (proj1 (proj2 (parseLssnap_range_errors JSON_parse_ascii
    (spec_header ++ le_int32 2 ++ le_int32 0 ++ [x00; x00; x00; x00]) eq_refl) 2
    ltac:(simpl; lia) eq_refl))).
  right. simpl. lia.
Defined.

(** C10 as stated fails on the 12-byte buffer ["LSS", 1, count 0,
    annotation length 0]: it is shorter than [16 + 9 * 0], yet it decodes to
    an empty snapshot. *)
Lemma C10_twelve_byte_buffer_counterexample :
  parseLssnap JSON_parse_ascii (spec_header ++ le_int32 0 ++ le_int32 0) =
    Ok {| vertexCount := 0; positions := []; colors := []; annotations := JArr [] |} /\
  (length (spec_header ++ le_int32 0 ++ le_int32 0) < 16 + 9 * 0)%nat.
Proof. split; [vm_compute; reflexivity|simpl; lia]. Qed.

(* ------------------------------------------------------------------ *)
(** ** C7: the annotation block never makes the decode fail *)

(** C7 (amended): for a buffer with a valid header, a non-negative vertex
    count and all its vertex records present, decoding returns a snapshot.
    With a positive annotation length, the annotations are the parsed JSON
    value when the byte range lies in the buffer and parses (whatever its
    shape), and the empty list when the range is out of the buffer or the
    text does not parse; with a length [<= 0] they are the empty list and
    the parser is not consulted (any parser gives the same result). *)
Theorem parseLssnap_annotations (P : list byte -> option json) (buffer : list byte)
    (vc len : Z) :
  take 4 buffer = spec_header -> getInt32 buffer 4 = Ok vc -> getInt32 buffer 8 = Ok len ->
  0 <= vc -> 16 + 9 * vc <= Z.of_nat (length buffer) ->
  exists d, parseLssnap P buffer = Ok d /\ vertexCount d = vc /\
    annotations d =
      (if 0 <? len then
         if 16 + 9 * vc + len <=? Z.of_nat (length buffer) then
           match P (take (Z.to_nat len) (drop (Z.to_nat (16 + 9 * vc)) buffer)) with
           | Some v => v
           | None => JArr []
           end
         else JArr []
       else JArr []) /\
    (len <= 0 -> forall P', parseLssnap P' buffer = parseLssnap P buffer).
Proof.
  intros Hh Hvc Hl Hnn Hfit.
  assert (Hbody : forall Q, exists p c,
    parseLssnap Q buffer =
    Ok {| vertexCount := vc; positions := p; colors := c;
          annotations := if 0 <? len
                         then annotation_block Q buffer (16 + 9 * vc) len
                         else JArr [] |}).
  { intros Q. rewrite parseLssnap_header_ok by done. unfold parseLssnap_body.
    rewrite Hvc, Hl. cbn [res_bind]. unfold Float32Array.
    destruct (Z.ltb_spec (vc * 3) 0); [lia|]. cbn [res_bind].
    destruct (proj1 (vertex_loop_spec buffer (Z.to_nat vc) 0
                (replicate (Z.to_nat (vc * 3)) 0%Q) (replicate (Z.to_nat (vc * 3)) 0%Q)
                16 ltac:(lia)) ltac:(lia)) as (p & c & Hloop & _).
    rewrite Hloop. cbn [res_bind]. exists p, c.
    replace (16 + 9 * Z.of_nat (Z.to_nat vc)) with (16 + 9 * vc) by lia. done. }
  destruct (Hbody P) as (p & c & HP).
  eexists. split; [exact HP|]. split; [done|]. split.
  - simpl. destruct (Z.ltb_spec 0 len); [|done].
    unfold annotation_block, Uint8Array.
    destruct (Z.leb_spec (16 + 9 * vc + len) (Z.of_nat (length buffer))).
    + rewrite (proj2 (Z.leb_le 0 (16 + 9 * vc))), (proj2 (Z.leb_le 0 len)) by lia.
      cbn [andb res_bind]. by destruct (P _).
    + destruct ((0 <=? 16 + 9 * vc) && (0 <=? len)); done.
  - intros Hle P'.
    rewrite (parseLssnap_header_ok P'), (parseLssnap_header_ok P) by done.
    unfold parseLssnap_body. rewrite Hvc, Hl. cbn [res_bind].
    rewrite (proj2 (Z.ltb_ge 0 len) Hle). reflexivity.
Qed.

Lemma parseLssnap_annotations_witness :
  exists d, parseLssnap JSON_parse_ascii object_annotation_buffer = Ok d /\
    vertexCount d = 0 /\ annotations d = JObj [].
Proof.
  assert (Hh : take 4 object_annotation_buffer = spec_header) by reflexivity.
  assert (Hvc : getInt32 object_annotation_buffer 4 = Ok 0) by reflexivity.
  assert (Hl : getInt32 object_annotation_buffer 8 = Ok 2) by reflexivity.
  assert (Hfit : 16 + 9 * 0 <= Z.of_nat (length object_annotation_buffer))
    by (vm_compute; discriminate).
  destruct (parseLssnap_annotations JSON_parse_ascii object_annotation_buffer 0 2
    Hh Hvc Hl (Z.le_refl 0) Hfit) as (d & H1 & H2 & H3 & _).
  exists d. split; [exact H1|]. split; [exact H2|].
  rewrite H3. vm_compute. reflexivity.
Defined.

(** C7 as stated says a block of the wrong shape degrades to the empty
    list.  The code does no shape check: the block [{}] is valid JSON, so
    the decoded annotations are the object [{}] and not the empty list. *)
Lemma C7_object_block_counterexample :
  parseLssnap JSON_parse_ascii object_annotation_buffer =
    Ok {| vertexCount := 0; positions := []; colors := []; annotations := JObj [] |} /\
  JObj [] <> JArr [].
Proof. split; [vm_compute; reflexivity|discriminate]. Qed.

(* ------------------------------------------------------------------ *)
(** ** C4: the subject filter *)

Lemma filter_loop_eq (P C : list Q) (xc zc yc : Q) (n vi : nat) (fp fc : list Q) :
  filter_loop P C xc zc yc n vi fp fc =
  (fp ++ fst (filtered_by (fun p => Qle_bool xc (vx p) && Qle_bool (vz p) zc && Qle_bool yc (vy p))
                P C (seq vi n)),
   fc ++ snd (filtered_by (fun p => Qle_bool xc (vx p) && Qle_bool (vz p) zc && Qle_bool yc (vy p))
                P C (seq vi n))).
Proof.
  revert vi fp fc. induction n as [|n IH]; intros vi fp fc.
  - cbn. by rewrite !app_nil_r.
  - cbn [filter_loop seq]. rewrite !IH. unfold filtered_by, getXYZ.
    cbn [flat_map fst snd vx vy vz]. cbv beta zeta.
    match goal with |- context [if ?c then _ else _] => destruct c end;
      by rewrite ?app_assoc, ?app_nil_r.
Qed.

Lemma Qmin_cases (x y : Q) : Qmin x y = x \/ Qmin x y = y.
Proof. unfold Qmin, GenericMinMax.gmin. destruct (x ?= y)%Q; auto. Qed.

Lemma Qmax_cases (x y : Q) : Qmax x y = x \/ Qmax x y = y.
Proof. unfold Qmax, GenericMinMax.gmax. destruct (x ?= y)%Q; auto. Qed.

(** Folding [vmin] over points: below the seed and every point, and each
    component is the seed's or some point's. *)
Lemma fold_vmin_spec (l : list vec3) (a : vec3) :
  let m := fold_left vmin l a in
  le3 m a /\ Forall (le3 m) l /\
  (vx m = vx a \/ exists p, In p l /\ vx p = vx m) /\
  (vy m = vy a \/ exists p, In p l /\ vy p = vy m) /\
  (vz m = vz a \/ exists p, In p l /\ vz p = vz m).
Proof.
  revert a. induction l as [|p l IH]; intros a; cbn zeta.
  - cbn. repeat split; auto using Qle_refl.
  - cbn [fold_left]. destruct (IH (vmin a p)) as (Hle & Hall & Hx & Hy & Hz).
    set (m := fold_left vmin l (vmin a p)) in *.
    destruct Hle as (H1 & H2 & H3). cbn in H1, H2, H3.
    split; [|split; [|split; [|split]]].
    + repeat split; eapply Qle_trans; eauto; apply Q.le_min_l.
    + constructor; [|exact Hall].
      repeat split; eapply Qle_trans; eauto; apply Q.le_min_r.
    + destruct Hx as [Hx|(q & Hq & Hx)]; [|right; exists q; auto with datatypes].
      cbn in Hx. destruct (Qmin_cases (vx a) (vx p)) as [E|E]; rewrite E in Hx; auto.
      right. exists p. auto with datatypes.
    + destruct Hy as [Hy|(q & Hq & Hy)]; [|right; exists q; auto with datatypes].
      cbn in Hy. destruct (Qmin_cases (vy a) (vy p)) as [E|E]; rewrite E in Hy; auto.
      right. exists p. auto with datatypes.
    + destruct Hz as [Hz|(q & Hq & Hz)]; [|right; exists q; auto with datatypes].
      cbn in Hz. destruct (Qmin_cases (vz a) (vz p)) as [E|E]; rewrite E in Hz; auto.
      right. exists p. auto with datatypes.
Qed.

Lemma fold_vmax_spec (l : list vec3) (a : vec3) :
  let m := fold_left vmax l a in
  le3 a m /\ Forall (fun p => le3 p m) l /\
  (vx m = vx a \/ exists p, In p l /\ vx p = vx m) /\
  (vy m = vy a \/ exists p, In p l /\ vy p = vy m) /\
  (vz m = vz a \/ exists p, In p l /\ vz p = vz m).
Proof.
  revert a. induction l as [|p l IH]; intros a; cbn zeta.
  - cbn. repeat split; auto using Qle_refl.
  - cbn [fold_left]. destruct (IH (vmax a p)) as (Hle & Hall & Hx & Hy & Hz).
    set (m := fold_left vmax l (vmax a p)) in *.
    destruct Hle as (H1 & H2 & H3). cbn in H1, H2, H3.
    split; [|split; [|split; [|split]]].
    + repeat split; eapply Qle_trans; eauto; apply Q.le_max_l.
    + constructor; [|exact Hall].
      repeat split; eapply Qle_trans; eauto; apply Q.le_max_r.
    + destruct Hx as [Hx|(q & Hq & Hx)]; [|right; exists q; auto with datatypes].
      cbn in Hx. destruct (Qmax_cases (vx a) (vx p)) as [E|E]; rewrite E in Hx; auto.
      right. exists p. auto with datatypes.
    + destruct Hy as [Hy|(q & Hq & Hy)]; [|right; exists q; auto with datatypes].
      cbn in Hy. destruct (Qmax_cases (vy a) (vy p)) as [E|E]; rewrite E in Hy; auto.
      right. exists p. auto with datatypes.
    + destruct Hz as [Hz|(q & Hq & Hz)]; [|right; exists q; auto with datatypes].
      cbn in Hz. destruct (Qmax_cases (vz a) (vz p)) as [E|E]; rewrite E in Hz; auto.
      right. exists p. auto with datatypes.
Qed.

Lemma box_loop_some (arr : list Q) (n i : nat) (mn mx : vec3) :
  box_loop arr n i (Some (mn, mx)) =
  Some (fold_left vmin (map (getXYZ arr) (seq i n)) mn,
        fold_left vmax (map (getXYZ arr) (seq i n)) mx).
Proof.
  revert i mn mx. induction n as [|n IH]; intros i mn mx; [done|].
  cbn [box_loop expandByPoint seq map fold_left]. apply IH.
Qed.

Lemma computeBoundingBox_spec (arr : list Q) (mn mx : vec3) :
  computeBoundingBox arr = Some (mn, mx) ->
  is_bounding_box (map (getXYZ arr) (seq 0 (length arr / 3))) mn mx.
Proof.
  unfold computeBoundingBox. destruct (length arr / 3)%nat as [|n]; [discriminate|].
  cbn [box_loop expandByPoint]. rewrite box_loop_some. intros [= <- <-].
  cbn [seq map].
  destruct (fold_vmin_spec (map (getXYZ arr) (seq 1 n)) (getXYZ arr 0))
    as (Hl & Hall & Hx & Hy & Hz).
  destruct (fold_vmax_spec (map (getXYZ arr) (seq 1 n)) (getXYZ arr 0))
    as (Hl' & Hall' & Hx' & Hy' & Hz').
  set (l := map (getXYZ arr) (seq 1 n)) in *.
  set (p0 := getXYZ arr 0) in *.
  set (m := fold_left vmin l p0) in *. set (M := fold_left vmax l p0) in *.
  split; [|split; [|split; [|split; [|split; [|split]]]]].
  - constructor; [done|]. apply Forall_forall. intros q Hq.
    split; [by apply (proj1 (Forall_forall _ _) Hall)|by apply (proj1 (Forall_forall _ _) Hall')].
  - destruct Hx as [E|(q & Hq & E)]; [exists p0; by split; [left|]|exists q; by split; [right|]].
  - destruct Hy as [E|(q & Hq & E)]; [exists p0; by split; [left|]|exists q; by split; [right|]].
  - destruct Hz as [E|(q & Hq & E)]; [exists p0; by split; [left|]|exists q; by split; [right|]].
  - destruct Hx' as [E|(q & Hq & E)]; [exists p0; by split; [left|]|exists q; by split; [right|]].
  - destruct Hy' as [E|(q & Hq & E)]; [exists p0; by split; [left|]|exists q; by split; [right|]].
  - destruct Hz' as [E|(q & Hq & E)]; [exists p0; by split; [left|]|exists q; by split; [right|]].
Qed.

Lemma computeBoundingBox_none (arr : list Q) :
  computeBoundingBox arr = None -> (length arr / 3 = 0)%nat.
Proof.
  unfold computeBoundingBox. destruct (length arr / 3)%nat as [|n]; [done|].
  cbn [box_loop expandByPoint]. by rewrite box_loop_some.
Qed.

Lemma count_vertexCount (d : LssnapData) :
  Z.of_nat (length (positions d)) = 3 * vertexCount d ->
  (length (positions d) / 3)%nat = Z.to_nat (vertexCount d).
Proof.
  intros H. replace (length (positions d)) with (Z.to_nat (vertexCount d) * 3)%nat by lia.
  apply Nat.div_mul. lia.
Qed.

Lemma Qle_bool_compat (a a' b b' : Q) :
  (a == a')%Q -> (b == b')%Q -> Qle_bool a b = Qle_bool a' b'.
Proof.
  intros Ha Hb. apply eq_true_iff_eq. rewrite !Qle_bool_iff, Ha, Hb. reflexivity.
Qed.

Lemma filtered_by_ext (k k' : vec3 -> bool) (P C : list Q) (idx : list nat) :
  (forall i, k (getXYZ P i) = k' (getXYZ P i)) ->
  filtered_by k P C idx = filtered_by k' P C idx.
Proof.
  intros H. unfold filtered_by. f_equal; apply flat_map_ext; intros i; by rewrite H.
Qed.

(** C4: the filter keeps point [i] iff [x_i >= centerX], [z_i <= minZ +
    zRange * depthFraction] and [y_i >= minY + yRange * heightFraction],
    where the box is the bounding box of all [vertexCount] points, and
    appends the kept points and their colours in order.  With
    [depthFraction = 0.75] and [heightFraction = 0.5] (the trackball
    variant with [filter]) on a cloud whose box is [[0,10]^3], the kept
    points are exactly those with [x >= 5], [z <= 7.5] and [y >= 5],
    boundaries included. *)
Theorem subject_filter_spec (depthFraction heightFraction : Q) (d : LssnapData) :
  Z.of_nat (length (positions d)) = 3 * vertexCount d ->
  (forall mn mx, computeBoundingBox (positions d) = Some (mn, mx) ->
     is_bounding_box (map (getXYZ (positions d)) (seq 0 (Z.to_nat (vertexCount d)))) mn mx /\
     subject_filter depthFraction heightFraction d =
       filtered_by (spec_keep mn mx depthFraction heightFraction) (positions d) (colors d)
         (seq 0 (Z.to_nat (vertexCount d)))) /\
  (computeBoundingBox (positions d) = None ->
     vertexCount d = 0 /\ subject_filter depthFraction heightFraction d = ([], [])) /\
  (forall mn mx, computeBoundingBox (positions d) = Some (mn, mx) ->
     veq mn (mkv 0 0 0) -> veq mx (mkv 10 10 10) ->
     trackball_points true d =
       filtered_by cube_keep (positions d) (colors d) (seq 0 (Z.to_nat (vertexCount d)))).
Proof.
  intros Hlen. pose proof (count_vertexCount d Hlen) as Hcount.
  assert (Hmain : forall df hf mn mx, computeBoundingBox (positions d) = Some (mn, mx) ->
     subject_filter df hf d =
       filtered_by (spec_keep mn mx df hf) (positions d) (colors d)
         (seq 0 (Z.to_nat (vertexCount d)))).
  { intros df hf mn mx Hb. unfold subject_filter. rewrite Hb. cbn zeta.
    rewrite filter_loop_eq. reflexivity. }
  split; [|split].
  - intros mn mx Hb. split; [|by apply Hmain].
    rewrite <- Hcount. by apply computeBoundingBox_spec.
  - intros Hb. pose proof (computeBoundingBox_none _ Hb) as H0. split; [lia|].
    unfold subject_filter. by rewrite Hb.
  - intros mn mx Hb (Hx0 & Hy0 & Hz0) (Hx1 & Hy1 & Hz1). cbn in Hx0, Hy0, Hz0, Hx1, Hy1, Hz1.
    unfold trackball_points. rewrite (Hmain _ _ mn mx Hb).
    apply filtered_by_ext. intros i. unfold spec_keep, cube_keep.
    f_equal; [f_equal|]; apply Qle_bool_compat; try reflexivity.
    + rewrite Hx0, Hx1. reflexivity.
    + rewrite Hz0, Hz1. reflexivity.
    + rewrite Hy0, Hy1. reflexivity.
Qed.

Lemma subject_filter_spec_witness :
  Z.of_nat (length (positions cube_grid)) = 3 * vertexCount cube_grid /\
  computeBoundingBox (positions cube_grid) = Some (mkv 0 0 0, mkv 10 10 10) /\
  trackball_points true cube_grid =
    filtered_by cube_keep (positions cube_grid) (colors cube_grid) (seq 0 125) /\
  length (fst (trackball_points true cube_grid)) = 108%nat.
Proof.
  assert (Hlen : Z.of_nat (length (positions cube_grid)) = 3 * vertexCount cube_grid)
    by reflexivity.
  assert (Hb : computeBoundingBox (positions cube_grid) = Some (mkv 0 0 0, mkv 10 10 10))
    by (vm_compute; reflexivity).
  assert (H0 : veq (mkv 0 0 0) (mkv 0 0 0)) by (repeat split; reflexivity).
  assert (H10 : veq (mkv 10 10 10) (mkv 10 10 10)) by (repeat split; reflexivity).
  pose proof (proj2 (proj2 (subject_filter_spec (3#4) (1#2) cube_grid Hlen))
    (mkv 0 0 0) (mkv 10 10 10) Hb H0 H10) as E.
  split; [exact Hlen|]. split; [exact Hb|]. split; [exact E|].
  rewrite E. vm_compute. reflexivity.
Defined.

(* ------------------------------------------------------------------ *)
(** ** C5 and C6: camera framing *)

Lemma orbit_delta_iter (n : nat) :
  sphericalDelta_theta (Nat.iter n orbit_update orbit_mount) =
  (- autoRotationAngle * (92 / 100) * (1 - (92 / 100) ^ n) * (100 / 8))%R.
Proof.
  induction n as [|n IH].
  - cbn. field.
  - rewrite Nat.iter_succ. unfold orbit_update at 1. cbn [sphericalDelta_theta].
    rewrite IH. unfold dampingFactor. cbn [pow]. field.
Qed.

(** The pose after line 186: the offset the framing set, turned about
    [+Y] through the target by [a]. *)
Lemma orbit_initial_pose_eq (frames : nat) (ps : list Q) :
  let v := frame_orbit initial_view ps in
  let s := orbit_initial_pose frames ps in
  let a := (- autoRotationAngle * (1 - (92 / 100) ^ S frames))%R in
  let t := Q2Rv (controls_target v) in
  let p := Q2Rv (cam_position v) in
  orbit_target s = t /\ orbit_looking_at s = Some t /\
  rx (orbit_position s) = (rx t + ((rx p - rx t) * cos a + (rz p - rz t) * sin a))%R /\
  ry (orbit_position s) = (ry t + (ry p - ry t))%R /\
  rz (orbit_position s) = (rz t + ((rz p - rz t) * cos a - (rx p - rx t) * sin a))%R.
Proof.
  intros v s a t p. subst s. unfold orbit_initial_pose. fold v.
  rewrite orbit_delta_iter.
  unfold orbit_update. cbn [orbit_target orbit_position orbit_looking_at
    sphericalDelta_theta rx ry rz].
  replace ((- autoRotationAngle * (92 / 100) * (1 - (92 / 100) ^ frames) * (100 / 8) -
            autoRotationAngle) * dampingFactor)%R with a
    by (subst a; unfold dampingFactor; cbn [pow]; field).
  fold t p. repeat split; reflexivity.
Qed.

Lemma orbit_angle_bounds (frames : nat) :
  let a := (- autoRotationAngle * (1 - (92 / 100) ^ S frames))%R in
  (- PI < - autoRotationAngle < a /\ a < 0)%R.
Proof.
  intros a. pose proof PI_RGT_0 as Hpi.
  assert (Hq : (0 < (92 / 100) ^ S frames < 1)%R).
  { split; [apply pow_lt; lra|].
    apply (pow_lt_1_compat (92 / 100) (S frames)); [lra|lia]. }
  assert (HA : (0 < autoRotationAngle < PI)%R)
    by (unfold autoRotationAngle, autoRotateSpeed; lra).
  assert (0 < autoRotationAngle * (92 / 100) ^ S frames)%R
    by (apply Rmult_lt_0_compat; lra).
  assert (autoRotationAngle * (92 / 100) ^ S frames < autoRotationAngle * 1)%R
    by (apply Rmult_lt_compat_l; lra).
  subst a. split; [split|]; lra.
Qed.

(** C5 (as amended): Policy A (orbit variant).  For every subset with a
    non-empty bounding box [mn, mx], with [c] its centre and [m] the
    largest extent, lines 182-185 set target [c], keep up [+Y], set the
    position [c + (-0.1 m, 0.25 m, 1.6 m)] and look at [c].  The
    [controls.update()] of line 186, with autorotation on and damping,
    then turns the camera about the vertical line through [c] by
    [a = -(PI / 7200) (1 - 0.92^(n+1))] rad, where [n] is the number of
    frames rendered before the data arrived: the captured initial pose
    has target [c], looks at [c], keeps the height [c.y + 0.25 m], and
    its horizontal offset is [(-0.1 m, 1.6 m)] turned by [a], with
    [-PI / 7200 < a < 0]. *)
Theorem frame_orbit_spec (frames : nat) (filtPositions : list Q) (mn mx : vec3) :
  computeBoundingBox filtPositions = Some (mn, mx) ->
  let c := mkv ((vx mn + vx mx) / 2) ((vy mn + vy mx) / 2) ((vz mn + vz mx) / 2) in
  let m := Qmax (Qmax (vx mx - vx mn) (vy mx - vy mn)) (vz mx - vz mn) in
  let v := frame_orbit initial_view filtPositions in
  let s := orbit_initial_pose frames filtPositions in
  let a := (- autoRotationAngle * (1 - (92 / 100) ^ S frames))%R in
  is_bounding_box (map (getXYZ filtPositions) (seq 0 (length filtPositions / 3))) mn mx /\
  controls_target v = c /\ cam_up v = mkv 0 1 0 /\ cam_looking_at v = Some c /\
  veq (cam_position v) (vadd c (mkv (-(1#10) * m) ((1#4) * m) ((8#5) * m))) /\
  orbit_target s = Q2Rv c /\ orbit_looking_at s = Some (Q2Rv c) /\
  (- autoRotationAngle < a < 0)%R /\ autoRotationAngle = (PI / 7200)%R /\
  rx (orbit_position s) =
    (Q2R (vx c) + Q2R (-(1#10) * m) * cos a + Q2R ((8#5) * m) * sin a)%R /\
  ry (orbit_position s) = (Q2R (vy c) + Q2R ((1#4) * m))%R /\
  rz (orbit_position s) =
    (Q2R (vz c) + Q2R ((8#5) * m) * cos a - Q2R (-(1#10) * m) * sin a)%R.
Proof.
  intros Hb c m v s a.
  assert (Hv : controls_target v = c /\ cam_up v = mkv 0 1 0 /\ cam_looking_at v = Some c /\
               veq (cam_position v) (vadd c (mkv (-(1#10) * m) ((1#4) * m) ((8#5) * m)))).
  { subst v. unfold frame_orbit. rewrite Hb. cbn [controls_target cam_up cam_position cam_looking_at].
    split; [reflexivity|]. split; [reflexivity|]. split; [reflexivity|].
    unfold veq, vadd. cbn [vx vy vz getCenter getSize maxDim3]. subst c m. unfold maxDim3.
    cbn [vx vy vz]. repeat split; field. }
  destruct Hv as (Ht & Hup & Hlook & Hpos).
  destruct (orbit_initial_pose_eq frames filtPositions) as (Et & El & Ex & Ey & Ez).
  fold v s a in Et, El, Ex, Ey, Ez. rewrite Ht in Et, El, Ex, Ey, Ez.
  destruct Hpos as (Px & Py & Pz). unfold vadd in Px, Py, Pz. cbn [vx vy vz] in Px, Py, Pz.
  apply Qeq_eqR in Px, Py, Pz. rewrite Q2R_plus in Px, Py, Pz.
  cbn [Q2Rv rx ry rz] in Ex, Ey, Ez.
  split; [by apply computeBoundingBox_spec|].
  split; [exact Ht|]. split; [exact Hup|]. split; [exact Hlook|].
  split; [unfold veq, vadd; cbn [vx vy vz];
          unfold veq in *; rewrite <- Ht; subst v; unfold frame_orbit; rewrite Hb;
          cbn [controls_target cam_position vx vy vz getCenter getSize maxDim3];
          subst c m; unfold maxDim3; cbn [vx vy vz]; repeat split; field|].
  split; [exact Et|]. split; [exact El|].
  split; [pose proof (orbit_angle_bounds frames) as B; cbv zeta in B; fold a in B; lra|].
  split; [unfold autoRotationAngle, autoRotateSpeed; field|].
  rewrite Ex, Ey, Ez, Px, Py, Pz. repeat split; ring.
Qed.

Lemma frame_orbit_spec_witness :
  computeBoundingBox unit_box_positions = Some (mkv (-1#2) (-1#2) (-1#2), mkv (1#2) (1#2) (1#2)) /\
  orbit_target (orbit_initial_pose 1 unit_box_positions) =
    Q2Rv (mkv (((-1#2) + (1#2)) / 2) (((-1#2) + (1#2)) / 2) (((-1#2) + (1#2)) / 2)).
Proof.
  assert (Hb : computeBoundingBox unit_box_positions =
               Some (mkv (-1#2) (-1#2) (-1#2), mkv (1#2) (1#2) (1#2)))
    by (vm_compute; reflexivity).
  split; [exact Hb|].
  exact (proj1 (proj2 (proj2 (proj2 (proj2 (proj2
    (frame_orbit_spec 1 unit_box_positions _ _ Hb))))))).
Defined.

(** C5 as stated puts the initial position at [(-0.1, 0.25, 1.6)] for the
    unit box centred at the origin.  That is where lines 182-185 put the
    camera; but the [controls.update()] of line 186 turns it before
    line 187 captures it: with one frame rendered before the data arrived
    (the [animate()] call of line 117), the captured position has
    [z < 1.6]. *)
Lemma C5_unit_box_counterexample :
  veq (cam_position (frame_orbit initial_view unit_box_positions)) (mkv (-1#10) (1#4) (8#5)) /\
  (rz (orbit_position (orbit_initial_pose 1 unit_box_positions)) < 8 / 5)%R.
Proof.
  split; [vm_compute; repeat split; reflexivity|].
  destruct (orbit_initial_pose_eq 1 unit_box_positions) as (_ & _ & _ & _ & Ez).
  cbv zeta in Ez. rewrite Ez.
  assert (Tx : Q2R (vx (controls_target (frame_orbit initial_view unit_box_positions))) = 0%R).
  { rewrite (Qeq_eqR _ 0) by (vm_compute; reflexivity). unfold Q2R. cbn. field. }
  assert (Tz : Q2R (vz (controls_target (frame_orbit initial_view unit_box_positions))) = 0%R).
  { rewrite (Qeq_eqR _ 0) by (vm_compute; reflexivity). unfold Q2R. cbn. field. }
  assert (Px : Q2R (vx (cam_position (frame_orbit initial_view unit_box_positions))) = (- (1 / 10))%R).
  { rewrite (Qeq_eqR _ (-1#10)) by (vm_compute; reflexivity). unfold Q2R. cbn. field. }
  assert (Pz : Q2R (vz (cam_position (frame_orbit initial_view unit_box_positions))) = (8 / 5)%R).
  { rewrite (Qeq_eqR _ (8#5)) by (vm_compute; reflexivity). unfold Q2R. cbn. field. }
  cbn [Q2Rv rx rz]. rewrite Tx, Tz, Px, Pz.
  pose proof (orbit_angle_bounds 1) as B. cbv zeta in B. destruct B as ((B1 & B2) & B3).
  set (a := (- autoRotationAngle * (1 - (92 / 100) ^ 2))%R) in *.
  pose proof (sin_lt_0_var a ltac:(lra) B3) as Hs.
  pose proof (COS_bound a) as Hc.
  lra.
Qed.

(** C6: Policy B (trackball variant).  For every subset with a non-empty
    bounding box, with [c] its centre and [m] the largest extent, the up
    vector becomes [+Z], the target is [c], the position is
    [c + (-0.5 m, -2.8 m, 0)] and the camera looks at [c]. *)
Theorem frame_trackball_spec (finalPositions : list Q) (mn mx : vec3) (v0 : view) :
  computeBoundingBox finalPositions = Some (mn, mx) ->
  let c := mkv ((vx mn + vx mx) / 2) ((vy mn + vy mx) / 2) ((vz mn + vz mx) / 2) in
  let m := Qmax (Qmax (vx mx - vx mn) (vy mx - vy mn)) (vz mx - vz mn) in
  let v := frame_trackball v0 finalPositions in
  is_bounding_box (map (getXYZ finalPositions) (seq 0 (length finalPositions / 3))) mn mx /\
  cam_up v = mkv 0 0 1 /\ controls_target v = c /\
  veq (cam_position v) (vadd c (mkv (-(1#2) * m) (-(14#5) * m) 0)) /\
  cam_looking_at v = Some c.
Proof.
  intros Hb c m v.
  split; [by apply computeBoundingBox_spec|].
  subst v. unfold frame_trackball. rewrite Hb. cbn [controls_target cam_up cam_position cam_looking_at].
  split; [reflexivity|]. split; [reflexivity|]. split; [|reflexivity].
  unfold veq, vadd. cbn [vx vy vz getCenter getSize maxDim3]. subst c m. unfold maxDim3. cbn [vx vy vz].
  repeat split; field.
Qed.

Lemma frame_trackball_spec_witness :
  computeBoundingBox unit_box_positions = Some (mkv (-1#2) (-1#2) (-1#2), mkv (1#2) (1#2) (1#2)) /\
  veq (cam_position (frame_trackball initial_view unit_box_positions)) (mkv (-1#2) (-14#5) 0).
Proof.
  assert (Hb : computeBoundingBox unit_box_positions =
               Some (mkv (-1#2) (-1#2) (-1#2), mkv (1#2) (1#2) (1#2)))
    by (vm_compute; reflexivity).
  split; [exact Hb|].
  pose proof (proj1 (proj2 (proj2 (proj2
    (frame_trackball_spec unit_box_positions _ _ initial_view Hb))))) as H.
  revert H. vm_compute. intros (Hx & Hy & Hz). repeat split; assumption.
Defined.

(* ------------------------------------------------------------------ *)
(** ** C8: the annotation overlay *)

Lemma build_loop_app (anns : list Annotation) (annGroup : list primitive) :
  build_loop anns annGroup = annGroup ++ flat_map build_annotation anns.
Proof.
  revert annGroup. induction anns as [|ann rest IH]; intros g; cbn.
  - by rewrite app_nil_r.
  - by rewrite IH, app_assoc.
Qed.

Lemma build_annotation_nil_iff (ann : Annotation) :
  overlay_skips ann <-> build_annotation ann = [].
Proof.
  unfold overlay_skips, build_annotation.
  destruct (ann_positions ann) as [ps|]; [|done].
  destruct (Nat.ltb_spec (length ps) 3) as [H3|H3].
  { split; [done|intros _; by left]. }
  cbv zeta.
  destruct (String.eqb_spec (ann_type ann) "point"%string) as [Ep|Ep].
  { split; [|discriminate].
    intros [H|[(H & _ & _)|(H & _)]]; [lia|done|rewrite Ep in H; discriminate]. }
  destruct (String.eqb_spec (ann_type ann) "circle"%string) as [Ec|Ec].
  { split; [|discriminate].
    intros [H|[(_ & H & _)|(H & _)]]; [lia|done|rewrite Ec in H; discriminate]. }
  destruct (String.eqb_spec (ann_type ann) "freehand"%string) as [Ef|Ef]; cbn [andb].
  - destruct (Nat.leb_spec 6 (length ps)) as [H6|H6].
    + split; [|discriminate]. intros [H|[(_ & _ & H)|(_ & H)]]; [lia|done|lia].
    + split; [done|intros _; right; right; split; [done|lia]].
  - split; [done|intros _; right; left; auto].
Qed.

(** C8 (as amended): the overlay is the concatenation, in order, of what
    each annotation yields on its own, so an annotation never changes what
    its siblings yield; an annotation yields nothing exactly when its
    positions are missing or hold fewer than 3 values, its type is none of
    point, circle and freehand, or it is a freehand with fewer than 6
    values; the spec's [{type: "freehand", positions: [1, 2]}] is dropped
    wherever it stands in a list; and a freehand with 6 or more values
    yields one polyline, whatever its length modulo 3. *)
Theorem build_overlay_spec :
  (forall anns, build_overlay anns = flat_map build_annotation anns) /\
  (forall ann, overlay_skips ann <-> build_annotation ann = []) /\
  (forall anns1 anns2,
     build_overlay (anns1 ++ short_freehand :: anns2) = build_overlay (anns1 ++ anns2)) /\
  (forall ann ps, ann_type ann = "freehand"%string -> ann_positions ann = Some ps ->
     (6 <= length ps)%nat -> exists color, build_annotation ann = [Polyline (freehand_points ps) color]).
Proof.
  split; [|split; [|split]].
  - intros anns. apply build_loop_app.
  - apply build_annotation_nil_iff.
  - intros anns1 anns2. unfold build_overlay. rewrite !build_loop_app, !flat_map_app.
    reflexivity.
  - intros ann ps Ht Hp H6. unfold build_annotation. rewrite Hp, Ht.
    rewrite (proj2 (Nat.ltb_ge (length ps) 3)) by lia.
    rewrite (proj2 (Nat.leb_le 6 (length ps)) H6). cbn -[freehand_points]. by eexists.
Qed.

(** C8 as stated says a freehand whose positions length is not a multiple
    of 3 is skipped.  The builder checks only [length >= 6]: seven values
    yield one polyline whose last vertex reads past the end. *)
Lemma C8_seven_value_freehand_counterexample :
  ann_positions seven_value_freehand = Some [1; 2; 3; 4; 5; 6; 7]%Q /\
  (7 mod 3 <> 0)%nat /\
  build_annotation seven_value_freehand =
    [Polyline [(Some 1, Some 2, Some 3); (Some 4, Some 5, Some 6); (Some 7, None, None)]%Q
       (1%Q, 2#5, 2#5)].
Proof. split; [reflexivity|]. split; [discriminate|]. vm_compute. reflexivity. Qed.

(* ------------------------------------------------------------------ *)
(** ** C9: the autorotation of the trackball variant *)

(** C9 (as amended): when the flag is set, a frame first moves the camera
    by [0.0005] rad in the horizontal x-z plane about the vertical line
    (world [Y]) through the target, leaving [y], the target and the up
    vector as they are and the horizontal distance to the target
    unchanged, and only then runs [controls.update()]; when the flag is
    off the frame is [controls.update()] alone. *)
Theorem animate_autorotate (controls_update : frame_state -> frame_state) (s : frame_state) :
  (autoRotating s = true ->
   animate controls_update s = controls_update (auto_rotate s) /\
   let p := camera_position s in
   let t := target s in
   let p' := camera_position (auto_rotate s) in
   ry p' = ry p /\ target (auto_rotate s) = t /\ camera_up (auto_rotate s) = camera_up s /\
   (rx p' - rx t = (rx p - rx t) * cos (5 / 10000) - (rz p - rz t) * sin (5 / 10000))%R /\
   (rz p' - rz t = (rx p - rx t) * sin (5 / 10000) + (rz p - rz t) * cos (5 / 10000))%R /\
   ((rx p' - rx t)² + (rz p' - rz t)² = (rx p - rx t)² + (rz p - rz t)²)%R) /\
  (autoRotating s = false -> animate controls_update s = controls_update s).
Proof.
  split.
  - intros Hon. unfold animate. rewrite Hon. split; [reflexivity|].
    cbn zeta. unfold auto_rotate, autorotate_angle. cbn [camera_position target camera_up rx ry rz].
    split; [reflexivity|]. split; [reflexivity|]. split; [reflexivity|].
    split; [ring|]. split; [ring|].
    pose proof (sin2_cos2 (5 / 10000)) as Hsc. unfold Rsqr in *.
    set (a := (rx (camera_position s) - rx (target s))%R).
    set (b := (rz (camera_position s) - rz (target s))%R).
    set (c := cos (5 / 10000)) in *. set (sn := sin (5 / 10000)) in *.
    replace (rx (target s) + a * c - b * sn - rx (target s))%R with (a * c - b * sn)%R by ring.
    replace (rz (target s) + a * sn + b * c - rz (target s))%R with (a * sn + b * c)%R by ring.
    transitivity ((a * a + b * b) * (sn * sn + c * c))%R; [ring|].
    rewrite Hsc. ring.
  - intros Hoff. unfold animate. by rewrite Hoff.
Qed.

Lemma sin_autorotate_angle_pos : (0 < sin autorotate_angle)%R.
Proof. apply sin_pos_tech. unfold autorotate_angle. lra. Qed.

(** C9 as stated says the rotation is about the camera's up axis.  After
    Policy B framing the up axis is [+Z]; a rotation about it keeps the
    z offset from the target, but a frame moves the camera at [(1, 0, 0)]
    to z = [sin 0.0005 > 0]. *)
Lemma C9_z_up_counterexample :
  camera_up z_up_state = mkr 0 0 1 /\
  (rz (camera_position z_up_state) - rz (target z_up_state) = 0)%R /\
  (0 < rz (camera_position (auto_rotate z_up_state)) - rz (target z_up_state))%R.
Proof.
  split; [reflexivity|]. split; [cbn; ring|].
  pose proof sin_autorotate_angle_pos as H.
  unfold auto_rotate, z_up_state. cbn [camera_position target rx rz].
  replace (0 + (1 - 0) * sin autorotate_angle + (0 - 0) * cos autorotate_angle - 0)%R
    with (sin autorotate_angle) by ring.
  exact H.
Qed.

(* ================================================================== *)
(** * Further properties of the viewer *)

(* ------------------------------------------------------------------ *)
(** ** Decoded values stay in the ranges of their wire types *)

Lemma getUint8_range buffer i r : getUint8 buffer i = Ok r -> 0 <= r <= 255.
Proof.
  unfold getUint8. destruct (i <? 0); [discriminate|].
  destruct (buffer !! _) as [b|]; [|discriminate]. intros [= <-].
  pose proof (u8_bound b). lia.
Qed.

Lemma getInt16_range buffer off x : getInt16 buffer off = Ok x -> -32768 <= x <= 32767.
Proof.
  unfold getInt16.
  destruct (getUint8 buffer off) as [b0|] eqn:E0; [|discriminate]. cbn [res_bind].
  destruct (getUint8 buffer (off + 1)) as [b1|] eqn:E1; [|discriminate]. cbn [res_bind].
  apply getUint8_range in E0, E1. intros [= <-].
  destruct (Z.leb_spec 32768 (b0 + 256 * b1)); lia.
Qed.

Lemma vertex_loop_ranges buffer n :
  forall i p c off p' c' off',
  Forall decoded_coord p -> Forall decoded_channel c ->
  vertex_loop buffer n i p c off = Ok (p', c', off') ->
  Forall decoded_coord p' /\ Forall decoded_channel c'.
Proof.
  induction n as [|n IH]; intros i p c off p' c' off' Hp Hc H; cbn [vertex_loop] in H.
  - injection H as <- <- _. done.
  - destruct (getInt16 buffer off) as [x|] eqn:Ex; [|discriminate]. cbn [res_bind] in H.
    destruct (getInt16 buffer (off + 2)) as [y|] eqn:Ey; [|discriminate]. cbn [res_bind] in H.
    destruct (getInt16 buffer (off + 4)) as [z|] eqn:Ez; [|discriminate]. cbn [res_bind] in H.
    destruct (getUint8 buffer (off + 6)) as [r|] eqn:Er; [|discriminate]. cbn [res_bind] in H.
    destruct (getUint8 buffer (off + 7)) as [g|] eqn:Eg; [|discriminate]. cbn [res_bind] in H.
    destruct (getUint8 buffer (off + 8)) as [b|] eqn:Eb; [|discriminate]. cbn [res_bind] in H.
    apply getInt16_range in Ex, Ey, Ez. apply getUint8_range in Er, Eg, Eb.
    eapply IH; [| |exact H].
    + repeat apply Forall_insert; try assumption;
        [exists x|exists y|exists z]; (split; [lia|split; [reflexivity|apply coord_close; lia]]).
    + repeat apply Forall_insert; try assumption;
        [exists r|exists g|exists b];
        (split; [lia|split; [reflexivity|apply channel_close; lia]]).
Qed.

(** Every coordinate of a decoded snapshot is the binary32 rounding of
    [k / 1000] for an int16 [k] and lies within 0.00001 of [k / 1000];
    every colour channel is the binary32 rounding of [c / 255] for a byte
    [c], lies in [[0, 1]] and within 0.0000001 of [c / 255]. *)
Theorem parseLssnap_value_ranges (P : list byte -> option json) (buffer : list byte)
    (d : LssnapData) :
  parseLssnap P buffer = Ok d ->
  Forall decoded_coord (positions d) /\ Forall decoded_channel (colors d).
Proof.
  intros H. destruct (parseLssnap_Ok P buffer d H)
    as (vc & len & p & c & off & _ & _ & _ & _ & Hloop & ->).
  cbn [positions colors]. eapply vertex_loop_ranges; [| |exact Hloop];
    apply Forall_replicate; [exists 0|exists 0]; vm_compute; repeat split; discriminate.
Qed.

Lemma parseLssnap_value_ranges_witness :
  match parseLssnap JSON_parse_ascii (spec_encode example_points) with
  | Ok d => Forall decoded_coord (positions d) /\ Forall decoded_channel (colors d)
  | Throw _ => False
  end.
Proof.
  assert (E : exists d, parseLssnap JSON_parse_ascii (spec_encode example_points) = Ok d)
    by (eexists; vm_compute; reflexivity).
  destruct E as [d E]. rewrite E.
  exact (parseLssnap_value_ranges JSON_parse_ascii (spec_encode example_points) d E).
Defined.

(* ------------------------------------------------------------------ *)
(** ** The reserved header bytes 12-15 are never read *)

Lemma getUint8_agree b b' i :
  agree_outside_reserved b b' -> i < 12 \/ 16 <= i -> getUint8 b i = getUint8 b' i.
Proof.
  intros [_ Hag] Hi. unfold getUint8. destruct (Z.ltb_spec i 0); [done|].
  rewrite Hag by lia. done.
Qed.

Lemma getInt16_agree b b' off :
  agree_outside_reserved b b' -> 16 <= off -> getInt16 b off = getInt16 b' off.
Proof.
  intros Hag Ho. unfold getInt16.
  rewrite (getUint8_agree b b' off), (getUint8_agree b b' (off + 1)) by (done || lia).
  done.
Qed.

Lemma getInt32_agree b b' off :
  agree_outside_reserved b b' -> 0 <= off -> off + 3 < 12 ->
  getInt32 b off = getInt32 b' off.
Proof.
  intros Hag H0 Ho. unfold getInt32.
  rewrite (getUint8_agree b b' off), (getUint8_agree b b' (off + 1)),
    (getUint8_agree b b' (off + 2)), (getUint8_agree b b' (off + 3)) by (done || lia).
  done.
Qed.

Lemma vertex_loop_agree b b' n :
  forall i p c off, agree_outside_reserved b b' -> 16 <= off ->
  vertex_loop b n i p c off = vertex_loop b' n i p c off.
Proof.
  induction n as [|n IH]; intros i p c off Hag Ho; [done|]. cbn [vertex_loop].
  rewrite (getInt16_agree b b' off), (getInt16_agree b b' (off + 2)),
    (getInt16_agree b b' (off + 4)), (getUint8_agree b b' (off + 6)),
    (getUint8_agree b b' (off + 7)), (getUint8_agree b b' (off + 8)) by (done || lia).
  destruct (getInt16 b' off); [|done]. cbn [res_bind].
  destruct (getInt16 b' (off + 2)); [|done]. cbn [res_bind].
  destruct (getInt16 b' (off + 4)); [|done]. cbn [res_bind].
  destruct (getUint8 b' (off + 6)); [|done]. cbn [res_bind].
  destruct (getUint8 b' (off + 7)); [|done]. cbn [res_bind].
  destruct (getUint8 b' (off + 8)); [|done]. cbn [res_bind].
  apply IH; [done|lia].
Qed.

Lemma vertex_loop_offset b n :
  forall i p c off p' c' off',
  vertex_loop b n i p c off = Ok (p', c', off') -> off <= off'.
Proof.
  induction n as [|n IH]; intros i p c off p' c' off' H; cbn [vertex_loop] in H.
  - injection H as _ _ <-. lia.
  - destruct (getInt16 b off); [|discriminate]. cbn [res_bind] in H.
    destruct (getInt16 b (off + 2)); [|discriminate]. cbn [res_bind] in H.
    destruct (getInt16 b (off + 4)); [|discriminate]. cbn [res_bind] in H.
    destruct (getUint8 b (off + 6)); [|discriminate]. cbn [res_bind] in H.
    destruct (getUint8 b (off + 7)); [|discriminate]. cbn [res_bind] in H.
    destruct (getUint8 b (off + 8)); [|discriminate]. cbn [res_bind] in H.
    apply IH in H. lia.
Qed.

Lemma drop_agree b b' k :
  agree_outside_reserved b b' -> (16 <= k)%nat -> drop k b = drop k b'.
Proof.
  intros [Hlen Hag] Hk. apply list_eq. intros i. rewrite !lookup_drop. apply Hag. lia.
Qed.

Lemma annotation_block_agree P b b' off len :
  agree_outside_reserved b b' -> 16 <= off ->
  annotation_block P b off len = annotation_block P b' off len.
Proof.
  intros Hag Ho. unfold annotation_block, Uint8Array.
  rewrite (drop_agree b b') by (done || lia). by rewrite (proj1 Hag).
Qed.

(** The decoder never reads the reserved bytes 12-15: two buffers that
    differ only there decode to the same result (snapshot or exception). *)
Theorem parseLssnap_ignores_reserved (P : list byte -> option json) (b b' : list byte) :
  agree_outside_reserved b b' -> parseLssnap P b = parseLssnap P b'.
Proof.
  intros Hag. unfold parseLssnap.
  rewrite (getUint8_agree b b' 0), (getUint8_agree b b' 1), (getUint8_agree b b' 2),
    (getUint8_agree b b' 3) by (done || lia).
  destruct (getUint8 b' 0); [|done]. cbn [res_bind].
  destruct (getUint8 b' 1); [|done]. cbn [res_bind].
  destruct (getUint8 b' 2); [|done]. cbn [res_bind].
  destruct (getUint8 b' 3); [|done]. cbn [res_bind].
  destruct (_ || _); [done|]. unfold parseLssnap_body.
  rewrite (getInt32_agree b b' 4), (getInt32_agree b b' 8) by (done || lia).
  destruct (getInt32 b' 4) as [vc|]; [|done]. cbn [res_bind].
  destruct (getInt32 b' 8) as [len|]; [|done]. cbn [res_bind].
  destruct (Float32Array (vc * 3)) as [fp|]; [|done]. cbn [res_bind].
  rewrite (vertex_loop_agree b b') by (done || lia).
  destruct (vertex_loop b' _ _ _ _ _) as [[[p c] off]|] eqn:E; [|done]. cbn [res_bind].
  apply vertex_loop_offset in E.
  by rewrite (annotation_block_agree P b b') by (done || lia).
Qed.

Lemma parseLssnap_ignores_reserved_witness :
  agree_outside_reserved (spec_encode example_points)
    (spec_header ++ le_int32 2 ++ le_int32 0 ++ [x7f; xff; x01; x02] ++
     flat_map spec_record example_points) /\
  parseLssnap JSON_parse_ascii (spec_encode example_points) =
    parseLssnap JSON_parse_ascii (spec_header ++ le_int32 2 ++ le_int32 0 ++
      [x7f; xff; x01; x02] ++ flat_map spec_record example_points).
Proof.
  assert (H : agree_outside_reserved (spec_encode example_points)
    (spec_header ++ le_int32 2 ++ le_int32 0 ++ [x7f; xff; x01; x02] ++
     flat_map spec_record example_points)).
  { split; [reflexivity|]. intros i Hi.
    do 12 (destruct i as [|i]; [reflexivity|]).
    do 4 (destruct i as [|i]; [lia|]). reflexivity. }
  split; [exact H|]. exact (parseLssnap_ignores_reserved JSON_parse_ascii _ _ H).
Defined.

(* ------------------------------------------------------------------ *)
(** ** Bytes past the annotation block are ignored *)

Lemma getUint8_snoc b e i r : getUint8 b i = Ok r -> getUint8 (b ++ e) i = Ok r.
Proof.
  unfold getUint8. destruct (i <? 0); [done|].
  destruct (b !! Z.to_nat i) as [x|] eqn:E; [|discriminate].
  by rewrite (lookup_app_l_Some _ _ _ _ E).
Qed.

Lemma getInt16_snoc b e off x : getInt16 b off = Ok x -> getInt16 (b ++ e) off = Ok x.
Proof.
  unfold getInt16.
  destruct (getUint8 b off) as [b0|] eqn:E0; [|discriminate].
  destruct (getUint8 b (off + 1)) as [b1|] eqn:E1; [|discriminate].
  by rewrite (getUint8_snoc _ _ _ _ E0), (getUint8_snoc _ _ _ _ E1).
Qed.

Lemma getInt32_snoc b e off x : getInt32 b off = Ok x -> getInt32 (b ++ e) off = Ok x.
Proof.
  unfold getInt32.
  destruct (getUint8 b off) as [b0|] eqn:E0; [|discriminate].
  destruct (getUint8 b (off + 1)) as [b1|] eqn:E1; [|discriminate].
  destruct (getUint8 b (off + 2)) as [b2|] eqn:E2; [|discriminate].
  destruct (getUint8 b (off + 3)) as [b3|] eqn:E3; [|discriminate].
  by rewrite (getUint8_snoc _ _ _ _ E0), (getUint8_snoc _ _ _ _ E1),
    (getUint8_snoc _ _ _ _ E2), (getUint8_snoc _ _ _ _ E3).
Qed.

Lemma vertex_loop_snoc b e n :
  forall i p c off r, vertex_loop b n i p c off = Ok r -> vertex_loop (b ++ e) n i p c off = Ok r.
Proof.
  induction n as [|n IH]; intros i p c off r H; [done|]. cbn [vertex_loop] in *.
  destruct (getInt16 b off) as [x|] eqn:Ex; [|discriminate].
  destruct (getInt16 b (off + 2)) as [y|] eqn:Ey; [|discriminate].
  destruct (getInt16 b (off + 4)) as [z|] eqn:Ez; [|discriminate].
  destruct (getUint8 b (off + 6)) as [r0|] eqn:Er; [|discriminate].
  destruct (getUint8 b (off + 7)) as [g|] eqn:Eg; [|discriminate].
  destruct (getUint8 b (off + 8)) as [bl|] eqn:Eb; [|discriminate].
  rewrite (getInt16_snoc _ _ _ _ Ex), (getInt16_snoc _ _ _ _ Ey), (getInt16_snoc _ _ _ _ Ez),
    (getUint8_snoc _ _ _ _ Er), (getUint8_snoc _ _ _ _ Eg), (getUint8_snoc _ _ _ _ Eb).
  cbn [res_bind] in *. by apply IH.
Qed.

Lemma vertex_loop_offset_eq b n :
  forall i p c off p' c' off',
  vertex_loop b n i p c off = Ok (p', c', off') -> off' = off + 9 * Z.of_nat n.
Proof.
  induction n as [|n IH]; intros i p c off p' c' off' H; cbn [vertex_loop] in H.
  - injection H as _ _ <-. lia.
  - destruct (getInt16 b off); [|discriminate]. cbn [res_bind] in H.
    destruct (getInt16 b (off + 2)); [|discriminate]. cbn [res_bind] in H.
    destruct (getInt16 b (off + 4)); [|discriminate]. cbn [res_bind] in H.
    destruct (getUint8 b (off + 6)); [|discriminate]. cbn [res_bind] in H.
    destruct (getUint8 b (off + 7)); [|discriminate]. cbn [res_bind] in H.
    destruct (getUint8 b (off + 8)); [|discriminate]. cbn [res_bind] in H.
    apply IH in H. lia.
Qed.

Lemma Uint8Array_snoc b e off len :
  0 <= off -> 0 <= len -> off + len <= Z.of_nat (length b) ->
  Uint8Array (b ++ e) off len = Uint8Array b off len.
Proof.
  intros H0 H1 H2. unfold Uint8Array. rewrite length_app.
  rewrite (proj2 (Z.leb_le 0 off) H0), (proj2 (Z.leb_le 0 len) H1),
    (proj2 (Z.leb_le _ (Z.of_nat (length b))) H2),
    (proj2 (Z.leb_le _ (Z.of_nat (length b + length e)))) by lia.
  cbn [andb]. rewrite drop_app_le by lia. rewrite take_app_le; [done|].
  rewrite length_drop. lia.
Qed.

(** Appending bytes to a buffer that decodes does not change the snapshot
    when the annotation length is [<= 0] or the annotation block lies
    inside the buffer: the decoder reads nothing past the block.  (When
    the block runs past the end, the appended bytes can complete it.) *)
Theorem parseLssnap_trailing_bytes (P : list byte -> option json) (b extra : list byte)
    (d : LssnapData) (len : Z) :
  parseLssnap P b = Ok d -> getInt32 b 8 = Ok len ->
  len <= 0 \/ 16 + 9 * vertexCount d + len <= Z.of_nat (length b) ->
  parseLssnap P (b ++ extra) = Ok d.
Proof.
  intros H Hl Hfit. destruct (parseLssnap_Ok P b d H)
    as (vc & len' & p & c & off & Hh & Hvc & Hl' & Hnn & Hloop & Hd).
  rewrite Hl in Hl'. injection Hl' as <-.
  assert (Hlen : (4 <= length b)%nat).
  { assert (H4 : length (take 4 b) = 4%nat) by (rewrite Hh; reflexivity).
    rewrite length_take in H4. lia. }
  rewrite parseLssnap_header_ok by (rewrite take_app_le by lia; exact Hh).
  unfold parseLssnap_body.
  rewrite (getInt32_snoc _ _ _ _ Hvc), (getInt32_snoc _ _ _ _ Hl). cbn [res_bind].
  unfold Float32Array. rewrite (proj2 (Z.ltb_ge (vc * 3) 0)) by lia. cbn [res_bind].
  rewrite (vertex_loop_snoc _ _ _ _ _ _ _ _ Hloop). cbn [res_bind].
  pose proof (vertex_loop_offset_eq _ _ _ _ _ _ _ _ _ Hloop) as Hoff.
  rewrite Z2Nat.id in Hoff by lia.
  subst d. cbn [vertexCount] in Hfit. f_equal. f_equal.
  destruct (Z.ltb_spec 0 len); [|done].
  destruct Hfit as [Hfit|Hfit]; [lia|].
  unfold annotation_block. rewrite Uint8Array_snoc by lia. done.
Qed.

Lemma parseLssnap_trailing_bytes_witness :
  parseLssnap JSON_parse_ascii (object_annotation_buffer ++ [x5d; x00]) =
    Ok {| vertexCount := 0; positions := []; colors := []; annotations := JObj [] |}.
Proof.
  assert (H : parseLssnap JSON_parse_ascii object_annotation_buffer =
    Ok {| vertexCount := 0; positions := []; colors := []; annotations := JObj [] |})
    by (vm_compute; reflexivity).
  assert (Hl : getInt32 object_annotation_buffer 8 = Ok 2) by reflexivity.
  assert (Hfit : 2 <= 0 \/ 16 + 9 * 0 + 2 <= Z.of_nat (length object_annotation_buffer))
    by (right; vm_compute; discriminate).
  exact (parseLssnap_trailing_bytes JSON_parse_ascii object_annotation_buffer [x5d; x00] _ 2
    H Hl Hfit).
Defined.

(* ------------------------------------------------------------------ *)
(** ** The filtered arrays stay aligned *)

Lemma filtered_by_length (keep : vec3 -> bool) (P C : list Q) (idx : list nat) :
  length (fst (filtered_by keep P C idx)) = (3 * length (List.filter (fun i => keep (getXYZ P i)) idx))%nat /\
  length (snd (filtered_by keep P C idx)) =
    (3 * length (List.filter (fun i => keep (getXYZ P i)) idx))%nat.
Proof.
  induction idx as [|i idx [IH1 IH2]]; [done|].
  unfold filtered_by in *. cbn [fst snd flat_map List.filter] in *.
  destruct (keep (getXYZ P i)); cbn [length app]; lia.
Qed.

(** The filter block pushes three coordinates and three colour channels
    per kept point: the two arrays it builds have the same length, three
    times the number of kept points, and at most [3 * vertexCount]. *)
Theorem subject_filter_lengths (depthFraction heightFraction : Q) (d : LssnapData) :
  let '(filtPos, filtCol) := subject_filter depthFraction heightFraction d in
  exists k, (k <= Z.to_nat (vertexCount d))%nat /\
    length filtPos = (3 * k)%nat /\ length filtCol = (3 * k)%nat.
Proof.
  unfold subject_filter.
  destruct (computeBoundingBox (positions d)) as [[mn mx]|]; [|exists 0%nat; cbn; lia].
  cbn zeta. rewrite filter_loop_eq. cbn [app].
  match goal with |- context [filtered_by ?k ?P ?C ?idx] =>
    destruct (filtered_by_length k P C idx) as [H1 H2];
    destruct (filtered_by k P C idx) as [fp fc] eqn:E end.
  cbn [fst snd] in H1, H2. eexists. split; [|split; [exact H1|exact H2]].
  rewrite <- (length_seq (Z.to_nat (vertexCount d)) 0) at 2. apply List.filter_length_le.
Qed.

(* ------------------------------------------------------------------ *)
(** ** Degenerate framing *)

Lemma computeBoundingBox_le (ps : list Q) (mn mx : vec3) :
  computeBoundingBox ps = Some (mn, mx) -> le3 mn mx.
Proof.
  intros Hb. destruct (computeBoundingBox_spec _ _ _ Hb) as (Hall & (p & Hp & _) & _).
  destruct (proj1 (List.Forall_forall _ _) Hall p Hp) as ((H1 & H2 & H3) & (H4 & H5 & H6)).
  repeat split; eapply Qle_trans; eauto.
Qed.

Lemma maxDim3_zero (sx sy sz : Q) :
  (0 <= sx)%Q -> (0 <= sy)%Q -> (0 <= sz)%Q ->
  (0 <= maxDim3 (mkv sx sy sz))%Q /\
  ((maxDim3 (mkv sx sy sz) == 0)%Q <-> (sx == 0 /\ sy == 0 /\ sz == 0)%Q).
Proof.
  intros Hx Hy Hz. unfold maxDim3. cbn [vx vy vz].
  pose proof (Q.le_max_l (Qmax sx sy) sz) as M1.
  pose proof (Q.le_max_r (Qmax sx sy) sz) as M2.
  pose proof (Q.le_max_l sx sy) as M3.
  pose proof (Q.le_max_r sx sy) as M4.
  set (m := Qmax (Qmax sx sy) sz) in *.
  split; [eapply Qle_trans; [exact Hx|]; eapply Qle_trans; eauto|].
  split.
  - intros Hm. set (m' := Qmax sx sy) in *. Lqa.lra.
  - intros (Ex & Ey & Ez). subst m.
    apply Qle_antisym; [|eapply Qle_trans; [exact Hx|]; eapply Qle_trans; eauto].
    apply Q.max_lub; [apply Q.max_lub|]; Lqa.lra.
Qed.

(** With no point to frame, both policies put the camera and the target
    at the origin.  Otherwise the largest extent is never negative, and
    each policy puts the camera at the target exactly when the bounding
    box is a single point, i.e. when all the points coincide. *)
Theorem frame_degenerate (ps : list Q) (v0 : view) :
  (computeBoundingBox ps = None ->
     veq (cam_position (frame_orbit v0 ps)) (mkv 0 0 0) /\
     controls_target (frame_orbit v0 ps) = mkv 0 0 0 /\
     veq (cam_position (frame_trackball v0 ps)) (mkv 0 0 0) /\
     controls_target (frame_trackball v0 ps) = mkv 0 0 0) /\
  (forall mn mx, computeBoundingBox ps = Some (mn, mx) ->
     (0 <= maxDim3 (getSize (computeBoundingBox ps)))%Q /\
     (veq (cam_position (frame_orbit v0 ps)) (controls_target (frame_orbit v0 ps)) <-> veq mn mx) /\
     (veq (cam_position (frame_trackball v0 ps)) (controls_target (frame_trackball v0 ps))
        <-> veq mn mx)).
Proof.
  split.
  - intros Hb. unfold frame_orbit, frame_trackball. rewrite Hb.
    vm_compute. repeat split; reflexivity.
  - intros mn mx Hb. destruct (computeBoundingBox_le _ _ _ Hb) as (Lx & Ly & Lz).
    destruct (maxDim3_zero (vx mx - vx mn) (vy mx - vy mn) (vz mx - vz mn)) as [Hpos Hiff];
      [Lqa.lra|Lqa.lra|Lqa.lra|].
    unfold frame_orbit, frame_trackball. rewrite Hb. cbn [getSize getCenter cam_position controls_target].
    split; [exact Hpos|].
    set (m := maxDim3 (mkv (vx mx - vx mn) (vy mx - vy mn) (vz mx - vz mn))) in *.
    assert (Hmn : veq mn mx <-> (m == 0)%Q).
    { rewrite Hiff. unfold veq. split; intros (A & B & C); repeat split; Lqa.lra. }
    rewrite Hmn. unfold veq. cbn [vx vy vz].
    split; split; [intros (A & _) | intros Hm; repeat split | intros (A & _) | intros Hm; repeat split];
      Lqa.lra.
Qed.

Lemma frame_degenerate_witness :
  computeBoundingBox unit_box_positions = Some (mkv (-1#2) (-1#2) (-1#2), mkv (1#2) (1#2) (1#2)) /\
  ~ veq (cam_position (frame_orbit initial_view unit_box_positions))
        (controls_target (frame_orbit initial_view unit_box_positions)).
Proof.
  assert (Hb : computeBoundingBox unit_box_positions =
               Some (mkv (-1#2) (-1#2) (-1#2), mkv (1#2) (1#2) (1#2)))
    by (vm_compute; reflexivity).
  split; [exact Hb|].
  rewrite (proj1 (proj2 (proj2 (frame_degenerate unit_box_positions initial_view) _ _ Hb))).
  intros (Hx & _). discriminate Hx.
Defined.

(* ------------------------------------------------------------------ *)
(** ** The vertices of a freehand polyline *)

Lemma freehand_loop_lookup (ps : list Q) (fuel i j : nat) :
  freehand_loop ps fuel i !! j =
  if (j <? Nat.min fuel ((length ps - i + 2) / 3))%nat
  then Some (ps !! (i + 3 * j)%nat, ps !! (i + 3 * j + 1)%nat, ps !! (i + 3 * j + 2)%nat)
  else None.
Proof.
  revert i j. induction fuel as [|f IH]; intros i j; [done|].
  cbn [freehand_loop]. destruct (Nat.ltb_spec i (length ps)) as [Hi|Hi].
  - destruct j as [|j].
    + cbn [lookup list_lookup]. rewrite (proj2 (Nat.ltb_lt _ _)); [by rewrite Nat.mul_0_r, Nat.add_0_r|].
      assert (1 <= (length ps - i + 2) / 3)%nat by (apply Nat.div_le_lower_bound; lia). lia.
    + cbn [lookup list_lookup]. rewrite IH.
      assert (E : ((length ps - (i + 3) + 2) / 3 = (length ps - i + 2) / 3 - 1)%nat).
      { destruct (Nat.le_gt_cases (length ps - i) 3).
        - rewrite (Nat.div_small (length ps - (i + 3) + 2)) by lia.
          assert ((length ps - i + 2) / 3 = 1)%nat as -> by (symmetry; apply (Nat.div_unique _ _ _ (length ps - i + 2 - 3)%nat); lia).
          lia.
        - replace (length ps - i + 2)%nat with ((length ps - (i + 3) + 2) + 1 * 3)%nat by lia.
          rewrite Nat.div_add by lia. lia. }
      rewrite E.
      assert (1 <= (length ps - i + 2) / 3)%nat by (apply Nat.div_le_lower_bound; lia).
      destruct (Nat.ltb_spec j (Nat.min f ((length ps - i + 2) / 3 - 1)));
        destruct (Nat.ltb_spec (S j) (Nat.min (S f) ((length ps - i + 2) / 3))); try lia; try done.
      by replace (i + 3 * S j)%nat with (i + 3 + 3 * j)%nat by lia.
  - rewrite (Nat.div_small (length ps - i + 2)) by lia.
    rewrite Nat.min_0_r. done.
Qed.

Lemma ceil3_le (n : nat) : ((n + 2) / 3 <= n)%nat.
Proof. destruct n as [|n]; [done|]. apply Nat.Div0.div_le_upper_bound. lia. Qed.

Lemma ceil3_pos (n : nat) : (1 <= n)%nat -> (1 <= (n + 2) / 3)%nat.
Proof. intros H. apply Nat.div_le_lower_bound; lia. Qed.

Lemma freehand_points_length (ps : list Q) :
  length (freehand_points ps) = ((length ps + 2) / 3)%nat.
Proof.
  unfold freehand_points. pose proof (ceil3_le (length ps)) as Hle.
  apply Nat.le_antisymm.
  - destruct (decide (((length ps + 2) / 3) < length (freehand_loop ps (length ps) 0))%nat) as [Hlt|Hge];
      [|lia].
    destruct (lookup_lt_is_Some_2 _ _ Hlt) as [v Hv].
    rewrite freehand_loop_lookup, Nat.sub_0_r in Hv.
    destruct (Nat.ltb_spec ((length ps + 2) / 3) (Nat.min (length ps) ((length ps + 2) / 3)));
      [lia|discriminate].
  - destruct (decide (((length ps + 2) / 3) = 0)%nat) as [E|Hn]; [lia|].
    assert (Hv : is_Some (freehand_loop ps (length ps) 0 !! ((length ps + 2) / 3 - 1)%nat)).
    { rewrite freehand_loop_lookup, Nat.sub_0_r.
      rewrite (proj2 (Nat.ltb_lt _ _)) by lia. by eexists. }
    apply lookup_lt_is_Some_1 in Hv. lia.
Qed.

(** The freehand branch pushes one vertex per step of 3 over the values:
    the polyline has [ceil (n / 3)] vertices, vertex [j] reads the values
    [3j], [3j+1] and [3j+2], and every vertex is fully defined exactly
    when the number of values is a multiple of 3 (otherwise the last one
    reads [undefined] past the end). *)
Theorem freehand_points_spec (ps : list Q) :
  length (freehand_points ps) = ((length ps + 2) / 3)%nat /\
  (forall j, (j < (length ps + 2) / 3)%nat ->
     freehand_points ps !! j = Some (ps !! (3 * j)%nat, ps !! (3 * j + 1)%nat, ps !! (3 * j + 2)%nat)) /\
  (Forall (fun v => match v with (Some _, Some _, Some _) => True | _ => False end)
     (freehand_points ps) <-> (length ps mod 3 = 0)%nat).
Proof.
  assert (Hlk : forall j, (j < (length ps + 2) / 3)%nat ->
     freehand_points ps !! j = Some (ps !! (3 * j)%nat, ps !! (3 * j + 1)%nat, ps !! (3 * j + 2)%nat)).
  { intros j Hj. unfold freehand_points. rewrite freehand_loop_lookup, Nat.sub_0_r.
    pose proof (ceil3_le (length ps)) as Hle.
    rewrite (proj2 (Nat.ltb_lt _ _)) by lia. done. }
  split; [apply freehand_points_length|]. split; [exact Hlk|].
  rewrite Forall_lookup. split.
  - intros Hall. destruct (decide (length ps = 0%nat)) as [E|Hn]; [rewrite E; done|].
    set (j := ((length ps + 2) / 3 - 1)%nat).
    assert (Hj : (j < (length ps + 2) / 3)%nat).
    { pose proof (ceil3_pos (length ps)). lia. }
    specialize (Hall j _ (Hlk j Hj)). cbv beta iota in Hall.
    destruct (ps !! (3 * j + 2)%nat) as [z|] eqn:Ez;
      [|destruct (ps !! (3 * j)%nat), (ps !! (3 * j + 1)%nat); contradiction].
    apply lookup_lt_Some in Ez.
    pose proof (Nat.div_mod (length ps + 2) 3 ltac:(lia)) as Hd.
    pose proof (Nat.mod_upper_bound (length ps + 2) 3 ltac:(lia)) as Hb.
    subst j. apply Nat.Div0.mod_divides.
    exists ((length ps + 2) / 3)%nat. 
    destruct ((length ps + 2) mod 3)%nat as [|[|[|k]]] eqn:Em; lia.
  - intros Hm j v Hv.
    destruct (decide (j < (length ps + 2) / 3)%nat) as [Hj|Hj].
    + rewrite (Hlk j Hj) in Hv. injection Hv as <-.
      apply Nat.Div0.mod_divides in Hm as [k Hk].
      assert (j < k)%nat.
      { rewrite Hk in Hj. replace (3 * k + 2)%nat with (2 + k * 3)%nat in Hj by lia.
        rewrite Nat.div_add in Hj by lia. cbn in Hj. lia. }
      replace (j + (j + (j + 0)))%nat with (3 * j)%nat by lia.
      destruct (lookup_lt_is_Some_2 ps (3 * j)%nat) as [x ->]; [lia|].
      destruct (lookup_lt_is_Some_2 ps (3 * j + 1)%nat) as [y ->]; [lia|].
      destruct (lookup_lt_is_Some_2 ps (3 * j + 2)%nat) as [z ->]; [lia|].
      exact I.
    + apply lookup_lt_Some in Hv. rewrite freehand_points_length in Hv. lia.
Qed.

(* ------------------------------------------------------------------ *)
(** ** What the overlay draws *)

Lemma build_annotation_drawable (ann : Annotation) :
  (length (build_annotation ann) <= 1)%nat /\ Forall drawable (build_annotation ann).
Proof.
  unfold build_annotation.
  destruct (ann_positions ann) as [ps|]; [|split; [cbn; lia|constructor]].
  destruct (Nat.ltb_spec (length ps) 3) as [H3|H3]; [split; [cbn; lia|constructor]|].
  cbv zeta.
  destruct (String.eqb (ann_type ann) "point"%string).
  { split; [cbn; lia|]. repeat constructor. cbn [drawable].
    destruct (ann_radius ann) as [r|]; [destruct (Qlt_le_dec (1#100) r)|]; Lqa.lra. }
  destruct (String.eqb (ann_type ann) "circle"%string).
  { split; [cbn; lia|]. repeat constructor. cbn [drawable].
    destruct (ann_radius ann) as [r|]; [destruct (Qlt_le_dec 0 r)|]; Lqa.lra. }
  destruct (String.eqb (ann_type ann) "freehand"%string && (6 <=? length ps)%nat) eqn:E;
    [|split; [cbn; lia|constructor]].
  apply andb_true_iff in E as [_ E]. apply Nat.leb_le in E.
  split; [cbn; lia|]. repeat constructor. cbn [drawable].
  rewrite freehand_points_length. apply Nat.div_le_lower_bound; lia.
Qed.

(** The annotation loop adds at most one object per annotation, and every
    object it adds can be drawn: a sphere of radius above 0.003 (the
    radius is replaced by 0.12 when missing or at most 0.01), a circle of
    positive radius (0.05 when missing or not positive), and a line
    through at least two vertices. *)
Theorem build_overlay_drawable (anns : list Annotation) :
  (length (build_overlay anns) <= length anns)%nat /\ Forall drawable (build_overlay anns).
Proof.
  unfold build_overlay. rewrite build_loop_app. cbn [app].
  induction anns as [|ann rest [IH1 IH2]]; [split; [cbn; lia|constructor]|].
  cbn [flat_map length]. destruct (build_annotation_drawable ann) as [H1 H2].
  rewrite length_app. split; [lia|]. by apply Forall_app.
Qed.

Lemma build_annotation_colors (ann : Annotation) :
  byte_color ann -> Forall (fun p => unit_rgb (primitive_color p)) (build_annotation ann).
Proof.
  intros Hc.
  assert (Hcol : unit_rgb (match ann_color ann with
                           | Some (r, g, b) => ((r / 255)%Q, (g / 255)%Q, (b / 255)%Q)
                           | None => (1%Q, (2#5), (2#5))
                           end)).
  { unfold byte_color in Hc. destruct (ann_color ann) as [[[r g] b]|].
    - destruct Hc as ((R1 & R2) & (G1 & G2) & (B1 & B2)). cbn.
      assert (D : forall x : Q, (0 <= x <= 255)%Q -> (0 <= x / 255 <= 1)%Q).
      { intros x (X1 & X2). split.
        - apply Qle_shift_div_l; [reflexivity|]. Lqa.lra.
        - apply Qle_shift_div_r; [reflexivity|]. Lqa.lra. }
      repeat split; apply D; split; assumption.
    - cbn. repeat split; discriminate. }
  unfold build_annotation.
  destruct (ann_positions ann) as [ps|]; [|constructor].
  destruct (Nat.ltb_spec (length ps) 3); [constructor|]. cbv zeta.
  destruct (String.eqb (ann_type ann) "point"%string); [repeat constructor; exact Hcol|].
  destruct (String.eqb (ann_type ann) "circle"%string); [repeat constructor; exact Hcol|].
  destruct (String.eqb (ann_type ann) "freehand"%string && (6 <=? length ps)%nat);
    [repeat constructor; exact Hcol|constructor].
Qed.

(** The colour of every object is [color / 255] channel by channel, or
    the default [(1, 0.4, 0.4)]: when every annotation's colour has
    channels in [[0, 255]], every object is drawn with channels in
    [[0, 1]]. *)
Theorem build_overlay_colors (anns : list Annotation) :
  Forall byte_color anns -> Forall (fun p => unit_rgb (primitive_color p)) (build_overlay anns).
Proof.
  intros H. unfold build_overlay. rewrite build_loop_app. cbn [app].
  induction H as [|ann rest Ha _ IH]; [constructor|].
  cbn [flat_map]. apply Forall_app. split; [by apply build_annotation_colors|exact IH].
Qed.

Lemma build_overlay_colors_witness :
  Forall byte_color [sample_point; short_freehand] /\
  Forall (fun p => unit_rgb (primitive_color p)) (build_overlay [sample_point; short_freehand]).
Proof.
  assert (H : Forall byte_color [sample_point; short_freehand]).
  { repeat constructor; cbn; repeat split; discriminate. }
  split; [exact H|]. exact (build_overlay_colors _ H).
Defined.

(* ------------------------------------------------------------------ *)
(** ** The size in the stats line *)

Lemma decimal_fuel_stable (f g : nat) (m : N) :
  (m < 10 ^ N.of_nat f)%N -> (f <= g)%nat -> decimal_fuel (S f) m = decimal_fuel (S g) m.
Proof.
  revert g m. induction f as [|f IH]; intros g m Hm Hfg.
  - cbn in Hm. assert (m = 0%N) as -> by lia. destruct g; reflexivity.
  - destruct g as [|g]; [lia|].
    cbn [decimal_fuel]. destruct (N.ltb_spec m 10); [reflexivity|].
    f_equal. apply IH; [|lia].
    apply N.Div0.div_lt_upper_bound. rewrite Nat2N.inj_succ, N.pow_succ_r' in Hm. lia.
Qed.

Lemma size_pow10 (n : N) : (n < 10 ^ N.of_nat (N.to_nat (N.size n)))%N.
Proof.
  rewrite N2Nat.id. eapply N.lt_le_trans; [apply N.size_gt|].
  apply N.pow_le_mono_l. lia.
Qed.

Lemma decimal_step (n : N) :
  (10 <= n)%N ->
  decimal n = String.append (decimal (n / 10)) (String (digit_char (n mod 10)) EmptyString).
Proof.
  intros Hn. unfold decimal.
  pose proof (size_pow10 n) as Hs.
  destruct (N.to_nat (N.size n)) as [|k] eqn:Ek; [cbn in Hs; lia|].
  cbn [decimal_fuel]. rewrite (proj2 (N.ltb_ge n 10)) by lia. f_equal.
  assert (Hk : (n / 10 < 10 ^ N.of_nat k)%N).
  { apply N.Div0.div_lt_upper_bound. rewrite Nat2N.inj_succ, N.pow_succ_r' in Hs. lia. }
  pose proof (size_pow10 (n / 10)) as Hs'.
  destruct (Nat.le_ge_cases k (N.to_nat (N.size (n / 10)))).
  - by apply decimal_fuel_stable.
  - symmetry. by apply decimal_fuel_stable.
Qed.

Lemma string_length_append (a b : string) :
  String.length (String.append a b) = (String.length a + String.length b)%nat.
Proof. induction a as [|c a IH]; [done|]. simpl. by rewrite IH. Qed.

Lemma decimal_fuel_S (f : nat) (n : N) :
  decimal_fuel (S f) n =
  if (n <? 10)%N then String (digit_char n) EmptyString
  else String.append (decimal_fuel f (n / 10)) (String (digit_char (n mod 10)) EmptyString).
Proof. reflexivity. Qed.

Lemma decimal_fuel_nonempty (f : nat) (n : N) : (1 <= String.length (decimal_fuel (S f) n))%nat.
Proof.
  revert n. induction f as [|f IH]; intros n; rewrite decimal_fuel_S;
    (destruct (N.ltb_spec n 10); [simpl; lia|]); rewrite string_length_append.
  - simpl. lia.
  - specialize (IH (n / 10)%N). lia.
Qed.

Lemma substring_prefix (a b : string) :
  String.substring 0 (String.length a) (String.append a b) = a.
Proof.
  induction a as [|c a IH]; simpl; [by destruct b|]. by rewrite IH.
Qed.

Lemma substring_suffix (a : string) (c : ascii) (rest : string) :
  String.substring (String.length a) 1 (String.append a (String c rest)) = String c EmptyString.
Proof. induction a as [|c' a IH]; simpl; [by destruct rest|]. exact IH. Qed.

Lemma toFixed1_ge1 (x : Q) :
  (1 <= x)%Q ->
  let n := Z.to_N (Qfloor (x * 10 + (1 # 2))) in
  (10 <= n)%N /\
  toFixed1 x = String.append (decimal (n / 10)) (String "." (String (digit_char (n mod 10)) EmptyString)).
Proof.
  intros Hx n.
  assert (Hf : 10 <= Qfloor (x * 10 + (1 # 2))).
  { pose proof (Qlt_floor (x * 10 + (1 # 2))) as H.
    assert (inject_Z 9 < inject_Z (Qfloor (x * 10 + (1 # 2))))%Q as H9.
    { rewrite inject_Z_plus in H. change (inject_Z 9) with (9 # 1). change (inject_Z 1) with (1 # 1) in H. Lqa.lra. }
    rewrite <- Zlt_Qlt in H9. lia. }
  assert (Hn : (10 <= n)%N) by (subst n; lia).
  split; [exact Hn|].
  unfold toFixed1. rewrite (proj2 (Qle_bool_iff 0 x)) by Lqa.lra. cbv zeta.
  rewrite (proj2 (Z.eqb_neq _ 0)) by lia. fold n.
  rewrite (decimal_step n Hn).
  pose proof (decimal_fuel_nonempty (N.to_nat (N.size (n / 10))) (n / 10)) as Hne.
  fold (decimal (n / 10)) in Hne.
  rewrite string_length_append. cbn [String.length].
  rewrite (proj2 (Nat.leb_gt _ 1)) by lia.
  replace (String.length (decimal (n / 10)) + 1 - 1)%nat with (String.length (decimal (n / 10))) by lia.
  rewrite substring_prefix, substring_suffix. reflexivity.
Qed.

Lemma string_append_assoc (a b c : string) :
  String.append (String.append a b) c = String.append a (String.append b c).
Proof. induction a as [|x a IH]; [done|]. exact (f_equal (String x) IH). Qed.

Lemma floor_bounds (q : Q) :
  (inject_Z (Qfloor q) <= q)%Q /\ (q < inject_Z (Qfloor q) + 1)%Q.
Proof.
  split; [apply Qfloor_le|]. pose proof (Qlt_floor q) as H.
  rewrite inject_Z_plus in H. exact H.
Qed.

Ltac qlra := unfold Qdiv in *; cbv [Qinv Qnum Qden] in *; Lqa.lra.

(** From 1024 bytes up to 1048575: kilobytes with one decimal, [b / 1024]
    rounded to the nearest tenth (halves up), from [1.0] to [1024.0];
    1048525 to 1048575 bytes show as [1024.0 KB], not as [1.0 MB]. *)
Theorem formatBytes_KB (b : Z) :
  1024 <= b < 1048576 ->
  exists n : N,
    formatBytes b = String.append (decimal (n / 10)) (String "." (String (digit_char (n mod 10)) " KB")) /\
    (10 <= n <= 10240)%N /\
    (inject_Z (Z.of_N n) / 10 - 1 / 20 <= inject_Z b / 1024 < inject_Z (Z.of_N n) / 10 + 1 / 20)%Q /\
    (n = 10240%N <-> 1048525 <= b).
Proof.
  intros Hb. unfold formatBytes.
  rewrite (proj2 (Z.ltb_ge b 1024)), (proj2 (Z.ltb_lt b 1048576)) by lia.
  assert (Hx : (1 <= inject_Z b / 1024)%Q).
  { apply Qle_shift_div_l; [reflexivity|]. rewrite Qmult_1_l.
    change 1024%Q with (inject_Z 1024). rewrite <- Zle_Qle. lia. }
  destruct (toFixed1_ge1 _ Hx) as [Hn E]. cbv zeta in Hn, E.
  set (F := Qfloor (inject_Z b / 1024 * 10 + (1 # 2))) in *.
  exists (Z.to_N F). rewrite E, string_append_assoc. split; [reflexivity|].
  destruct (floor_bounds (inject_Z b / 1024 * 10 + (1 # 2))) as [F1 F2]. fold F in F1, F2.
  rewrite Z2N.id by lia.
  assert (Hq : (inject_Z b <= 1048575)%Q).
  { change 1048575%Q with (inject_Z 1048575). rewrite <- Zle_Qle. lia. }
  assert (HF : F <= 10240).
  { assert (inject_Z F < inject_Z 10241)%Q as H; [|rewrite <- Zlt_Qlt in H; lia].
    change (inject_Z 10241) with (10241 # 1). qlra. }
  split; [lia|]. split; [split; qlra|].
  split.
  - intros H10. assert (F = 10240) as EF by lia. rewrite EF in F1.
    assert (inject_Z 1048524 < inject_Z b)%Q as H; [|rewrite <- Zlt_Qlt in H; lia].
    change (inject_Z 10240) with (10240 # 1) in F1. change (inject_Z 1048524) with (1048524 # 1).
    qlra.
  - intros Hge. assert (inject_Z 1048525 <= inject_Z b)%Q as H by (rewrite <- Zle_Qle; lia).
    change (inject_Z 1048525) with (1048525 # 1) in H.
    assert (inject_Z 10239 < inject_Z F)%Q as H2; [|rewrite <- Zlt_Qlt in H2; lia].
    change (inject_Z 10239) with (10239 # 1). qlra.
Qed.


Lemma digit_value_char (d : N) : (d < 10)%N -> digit_value (digit_char d) = Some d.
Proof.
  intros Hd.
  assert (d = 0 \/ d = 1 \/ d = 2 \/ d = 3 \/ d = 4 \/ d = 5 \/ d = 6 \/ d = 7 \/ d = 8 \/ d = 9)%N
    as H by lia.
  repeat destruct H as [->|H]; try reflexivity. subst d. reflexivity.
Qed.

Lemma digit_value_digit (c : ascii) (d : N) :
  digit_value c = Some d -> (d < 10)%N -> (48 <= N_of_ascii c <= 57)%N /\ d = (N_of_ascii c - 48)%N.
Proof.
  unfold digit_value.
  destruct ((48 <=? N_of_ascii c) && (N_of_ascii c <=? 57))%N eqn:E1.
  { intros [= <-] _. apply andb_true_iff in E1 as [E1 E2].
    apply N.leb_le in E1, E2. lia. }
  destruct ((97 <=? N_of_ascii c) && (N_of_ascii c <=? 122))%N eqn:E2.
  { intros [= <-] H. apply andb_true_iff in E2 as [E2 _]. apply N.leb_le in E2. lia. }
  destruct ((65 <=? N_of_ascii c) && (N_of_ascii c <=? 90))%N eqn:E3; [|discriminate].
  intros [= <-] H. apply andb_true_iff in E3 as [E3 _]. apply N.leb_le in E3. lia.
Qed.

Lemma digit_not_special (c : ascii) (d : N) :
  digit_value c = Some d -> (d < 10)%N ->
  is_str_whitespace c = false /\ Ascii.eqb c "-" = false /\ Ascii.eqb c "+" = false /\
  Ascii.eqb c "x" = false /\ Ascii.eqb c "X" = false.
Proof.
  intros Hc Hd. destruct (digit_value_digit c d Hc Hd) as [Hr _].
  assert (Hne : forall c', (N_of_ascii c' < 48 \/ 57 < N_of_ascii c')%N -> Ascii.eqb c c' = false).
  { intros c' Hc'. apply Ascii.eqb_neq. intros ->. lia. }
  split; [|split; [|split; [|split]]]; try (apply Hne; cbn; lia).
  unfold is_str_whitespace. cbv zeta.
  destruct (N.leb_spec 9 (N_of_ascii c)), (N.leb_spec (N_of_ascii c) 13),
    (N.eqb_spec (N_of_ascii c) 32), (N.eqb_spec (N_of_ascii c) 160); cbn; lia.
Qed.

Lemma append_cons (c : ascii) (a b : string) :
  String.append (String c a) b = String c (String.append a b).
Proof. reflexivity. Qed.

Lemma take_digits_app (R : N) (a b : string) :
  length (take_digits R a) = String.length a ->
  take_digits R (String.append a b) = take_digits R a ++ take_digits R b.
Proof.
  induction a as [|c a IH]; [done|]. rewrite append_cons. cbn [take_digits String.length].
  destruct (digit_value c) as [d|]; [|discriminate].
  destruct (d <? R)%N; [|discriminate]. cbn [length app]. intros [= H]. by rewrite IH.
Qed.

Lemma take_digits_cons (R : N) (c : ascii) (s : string) :
  length (take_digits R (String c s)) = String.length (String c s) ->
  exists d, digit_value c = Some d /\ (d < R)%N /\
    take_digits R (String c s) = d :: take_digits R s /\
    length (take_digits R s) = String.length s.
Proof.
  cbn [take_digits String.length].
  destruct (digit_value c) as [d|]; [|discriminate].
  destruct (N.ltb_spec d R) as [Hd|Hd]; [|discriminate]. cbn [length]. intros [= Hl].
  exists d. auto.
Qed.

Lemma digits_value_snoc (R : N) (l : list N) (d : N) :
  digits_value R (l ++ [d]) = (digits_value R l * R + d)%N.
Proof. unfold digits_value. by rewrite fold_left_app. Qed.

Lemma decimal_fuel_digits (f : nat) (m : N) :
  (m < 10 ^ N.of_nat f)%N ->
  length (take_digits 10 (decimal_fuel (S f) m)) = String.length (decimal_fuel (S f) m) /\
  digits_value 10 (take_digits 10 (decimal_fuel (S f) m)) = m.
Proof.
  revert m. induction f as [|f IH]; intros m Hm; rewrite decimal_fuel_S;
    destruct (N.ltb_spec m 10) as [H10|H10].
  1, 3: cbn [take_digits]; rewrite (digit_value_char m H10), (proj2 (N.ltb_lt m 10) H10); done.
  - cbn in Hm. lia.
  - assert (Hk : (m / 10 < 10 ^ N.of_nat f)%N).
    { apply N.Div0.div_lt_upper_bound. rewrite Nat2N.inj_succ, N.pow_succ_r' in Hm. lia. }
    destruct (IH (m / 10)%N Hk) as [L V].
    rewrite take_digits_app by exact L. cbn [take_digits].
    pose proof (N.mod_lt m 10 ltac:(lia)) as Hmod.
    rewrite (digit_value_char _ Hmod), (proj2 (N.ltb_lt _ 10) Hmod).
    rewrite length_app, string_length_append, L. cbn [length String.length]. split; [lia|].
    rewrite digits_value_snoc, V. pose proof (N.div_mod m 10 ltac:(lia)). lia.
Qed.

Lemma decimal_digits (m : N) :
  length (take_digits 10 (decimal m)) = String.length (decimal m) /\
  digits_value 10 (take_digits 10 (decimal m)) = m /\
  (1 <= String.length (decimal m))%nat.
Proof.
  unfold decimal. destruct (decimal_fuel_digits (N.to_nat (N.size m)) m (size_pow10 m)) as [L V].
  split; [exact L|]. split; [exact V|]. apply decimal_fuel_nonempty.
Qed.

(** What [parseInt] does after the sign on the decimal digits of [m]. *)
Lemma parse_decimal_body (m : N) :
  exists c r, decimal m = String c r /\
    is_str_whitespace c = false /\ Ascii.eqb c "-" = false /\ Ascii.eqb c "+" = false /\
    (match r with
     | String c1 r' => Ascii.eqb c "0" && (Ascii.eqb c1 "x" || Ascii.eqb c1 "X") = false
     | EmptyString => True
     end) /\
    take_digits 10 (decimal m) <> [] /\
    digits_value 10 (take_digits 10 (decimal m)) = m.
Proof.
  destruct (decimal_digits m) as (L & V & Hne).
  destruct (decimal m) as [|c r] eqn:E; [cbn in Hne; lia|].
  destruct (take_digits_cons 10 c r L) as (d & Hd & Hd10 & Et & Lr).
  destruct (digit_not_special c d Hd Hd10) as (W & M & P & _ & _).
  exists c, r. split; [done|]. do 3 (split; [assumption|]).
  split; [|split; [rewrite Et; discriminate|exact V]].
  destruct r as [|c1 r']; [exact I|].
  destruct (take_digits_cons 10 c1 r' Lr) as (d1 & Hd1 & Hd110 & _ & _).
  destruct (digit_not_special c1 d1 Hd1 Hd110) as (_ & _ & _ & X1 & X2).
  rewrite X1, X2. apply andb_false_r.
Qed.

Lemma parse_decimal_finish (m : N) (sign : Z) :
  match take_digits 10 (decimal m) with
  | [] => None
  | ds => Some (sign * Z.of_N (digits_value 10 ds))
  end = Some (sign * Z.of_N m).
Proof.
  destruct (parse_decimal_body m) as (_ & _ & _ & _ & _ & _ & _ & Hne & V).
  destruct (take_digits 10 (decimal m)) eqn:T; [done|]. by rewrite V.
Qed.

Lemma parseInt_number_to_string (z : Z) : parseInt (number_to_string z) = Some z.
Proof.
  unfold number_to_string, parseInt.
  destruct (Z.ltb_spec z 0) as [Hz|Hz].
  - pose proof (parse_decimal_finish (Z.to_N (- z)) (-1)) as Fin.
    destruct (parse_decimal_body (Z.to_N (- z))) as (c & r & E & W & M & P & X & _ & _).
    rewrite E in Fin |- *.
    change ("-" +:+ String c r)%string with (String "-" (String c r)). cbn [trim_start].
    rewrite (eq_refl : is_str_whitespace "-"%char = false).
    cbv iota beta. rewrite (eq_refl : Ascii.eqb "-"%char "-"%char = true). cbn [orb]. cbv iota beta.
    destruct r as [|c1 r']; [|rewrite X]; cbv iota beta; rewrite Fin; f_equal; lia.
  - pose proof (parse_decimal_finish (Z.to_N z) 1) as Fin.
    destruct (parse_decimal_body (Z.to_N z)) as (c & r & E & W & M & P & X & _ & _).
    rewrite E in Fin |- *. cbn [trim_start]. rewrite W, M, P.
    cbv iota beta. cbn [orb]. cbv iota beta.
    destruct r as [|c1 r']; [|rewrite X]; cbv iota beta; rewrite Fin; f_equal; lia.
Qed.

(** From 1048576 bytes up to the largest safe integer: megabytes with one
    decimal, [b / 1048576] rounded to the nearest tenth (halves up), at
    least [1.0]. *)
Theorem formatBytes_MB (b : Z) :
  1048576 <= b < 2 ^ 53 ->
  exists n : N,
    formatBytes b = String.append (decimal (n / 10)) (String "." (String (digit_char (n mod 10)) " MB")) /\
    (10 <= n)%N /\
    (inject_Z (Z.of_N n) / 10 - 1 / 20 <= inject_Z b / 1048576 < inject_Z (Z.of_N n) / 10 + 1 / 20)%Q.
Proof.
  intros Hb. unfold formatBytes.
  rewrite (proj2 (Z.ltb_ge b 1024)), (proj2 (Z.ltb_ge b 1048576)) by lia.
  assert (Hx : (1 <= inject_Z b / 1048576)%Q).
  { apply Qle_shift_div_l; [reflexivity|]. rewrite Qmult_1_l.
    change 1048576%Q with (inject_Z 1048576). rewrite <- Zle_Qle. lia. }
  destruct (toFixed1_ge1 _ Hx) as [Hn E]. cbv zeta in Hn, E.
  set (F := Qfloor (inject_Z b / 1048576 * 10 + (1 # 2))) in *.
  exists (Z.to_N F). rewrite E, string_append_assoc. split; [reflexivity|].
  split; [exact Hn|].
  destruct (floor_bounds (inject_Z b / 1048576 * 10 + (1 # 2))) as [F1 F2]. fold F in F1, F2.
  rewrite Z2N.id by lia. split; qlra.
Qed.

(** The byte count given to [formatBytes]: the buffer's length when the
    Content-Length header is missing, or parses to [NaN] or to [0] (an
    empty header counts as ['0']); the header's value when it holds the
    decimal digits of a nonzero safe integer, whatever the buffer's
    length. *)
Theorem byteLength_fallback :
  (forall L, byteLength None L = L) /\
  (forall h L, parseInt h = None \/ parseInt h = Some 0 -> byteLength (Some h) L = L) /\
  (forall n L, n <> 0 -> Z.abs n < 2 ^ 53 -> byteLength (Some (number_to_string n)) L = n).
Proof.
  split; [reflexivity|]. split.
  - intros h L Hp. unfold byteLength, initial_byteLength.
    destruct (String.eqb_spec h ""); [reflexivity|].
    destruct Hp as [-> | ->]; reflexivity.
  - intros n L Hn _. unfold byteLength, initial_byteLength.
    destruct (String.eqb_spec (number_to_string n) "") as [E|E].
    + pose proof (parseInt_number_to_string n) as P. rewrite E in P. discriminate P.
    + rewrite parseInt_number_to_string. by rewrite (proj2 (Z.eqb_neq n 0) Hn).
Qed.


(* ------------------------------------------------------------------ *)
(** ** The toolbar buttons *)

Lemma run_clicks_snoc (v : variant) (cs : list click) (c : click) :
  run_clicks v (cs ++ [c]) = on_click v (run_clicks v cs) c.
Proof. unfold run_clicks. by rewrite fold_left_app. Qed.

Lemma count_clicks_snoc (c c' : click) (cs : list click) :
  count_clicks c (cs ++ [c']) =
  (count_clicks c cs + match c, c' with
                       | BgClick, BgClick | RotateClick, RotateClick => 1
                       | _, _ => 0
                       end)%nat.
Proof.
  unfold count_clicks. rewrite List.filter_app, length_app. f_equal.
  by destruct c, c'.
Qed.

Lemma run_clicks_set (v : variant) (cs : list click) :
  scene_set (run_clicks v cs) = true /\ controls_set (run_clicks v cs) = true.
Proof.
  induction cs as [|c cs IH] using rev_ind; [done|].
  rewrite run_clicks_snoc. destruct IH as [H1 H2].
  destruct c, v; cbn; rewrite ?H2; auto.
Qed.

(** In both variants, after any sequence of clicks, with [k] clicks on
    the background button: the dark mode is on exactly when [k] is odd,
    the scene background is the colour [0x0a0a0f] when it is on and
    [null] when it is off, and the button reads [Dark Bg] before the first
    click, then [Clear] after an odd number of clicks and [Dark] after an
    even one, never [Dark Bg] again. *)
Theorem toolbar_background (v : variant) (cs : list click) :
  let t := run_clicks v cs in
  let k := count_clicks BgClick cs in
  darkBg t = Nat.odd k /\
  background t = (if Nat.odd k then Some 0x0a0a0f else None) /\
  bg_label t = (if (k =? 0)%nat then "Dark Bg" else if Nat.odd k then "Clear" else "Dark")%string.
Proof.
  induction cs as [|c cs IH] using rev_ind; [done|]. cbv zeta in *.
  destruct IH as (H1 & H2 & H3). destruct (run_clicks_set v cs) as [S1 S2].
  rewrite run_clicks_snoc, count_clicks_snoc.
  destruct c; cbn [on_click].
  - rewrite Nat.add_1_r, Nat.odd_succ, <- Nat.negb_odd.
    unfold handleBgToggle. cbn [darkBg background bg_label]. rewrite H1, S1.
    destruct (Nat.odd (count_clicks BgClick cs)); cbn; auto.
  - rewrite Nat.add_0_r.
    destruct v; unfold handleAutoRotate; cbn [controls_set]; rewrite ?S2; cbn; auto.
Qed.

(** In both variants, after any sequence of clicks, autorotation is on
    exactly when the autorotation button was clicked an even number of
    times, and the button text always matches it: [Auto-Rotate: ON] when
    on, [Auto-Rotate: OFF] when off. *)
Theorem toolbar_autorotate (v : variant) (cs : list click) :
  let t := run_clicks v cs in
  rotating t = Nat.even (count_clicks RotateClick cs) /\
  rotate_label t = String.append "Auto-Rotate: " (if rotating t then "ON" else "OFF").
Proof.
  induction cs as [|c cs IH] using rev_ind; [done|]. cbv zeta in *.
  destruct IH as (H1 & H2). destruct (run_clicks_set v cs) as [S1 S2].
  rewrite run_clicks_snoc, count_clicks_snoc.
  destruct c; cbn [on_click].
  - rewrite Nat.add_0_r. unfold handleBgToggle. cbn [rotating rotate_label]. auto.
  - rewrite Nat.add_1_r, Nat.even_succ, <- Nat.negb_even, <- H1.
    destruct v; unfold handleAutoRotate; cbn [controls_set]; rewrite ?S2; cbn; auto.
Qed.

Lemma formatBytes_KB_witness :
  1024 <= 1048575 < 1048576 /\ formatBytes 1048575 = "1024.0 KB"%string /\
  exists n : N, (10 <= n <= 10240)%N /\ n = 10240%N.
Proof.
  assert (H : 1024 <= 1048575 < 1048576) by lia.
  split; [exact H|]. split; [vm_compute; reflexivity|].
  destruct (formatBytes_KB 1048575 H) as (n & _ & Hb & _ & Hq).
  exists n. split; [exact Hb|]. apply Hq. lia.
Defined.

Lemma formatBytes_MB_witness :
  1048576 <= 5000000 < 2 ^ 53 /\ formatBytes 5000000 = "4.8 MB"%string /\
  exists n : N, (10 <= n)%N.
Proof.
  assert (H : 1048576 <= 5000000 < 2 ^ 53) by lia.
  split; [exact H|]. split; [vm_compute; reflexivity|].
  destruct (formatBytes_MB 5000000 H) as (n & _ & Hn & _).
  exists n. exact Hn.
Defined.

Lemma byteLength_fallback_witness :
  byteLength (Some (number_to_string 2048)) 77 = 2048 /\
  byteLength (Some "abc"%string) 77 = 77 /\
  formatBytes (byteLength (Some (number_to_string 2048)) 77) = "2.0 KB"%string.
Proof.
  destruct byteLength_fallback as (_ & Hnan & Hnum).
  assert (E : byteLength (Some (number_to_string 2048)) 77 = 2048)
    by (apply Hnum; [discriminate|reflexivity]).
  split; [exact E|]. split; [apply Hnan; left; reflexivity|].
  rewrite E. vm_compute. reflexivity.
Defined.
